(** * PyNight, [pynight/common_torch.py]: [drop_tokens] and [torch_shape_get]

    A shallow embedding of the two algorithmic helpers of
    [common_torch.py] together with the properties of their
    specification.

    - [Torch.drop_tokens] is the masked sequence compactor (the
      specification calls it [compact]).
    - [Introspect.torch_shape_get] is the structural introspector (the
      specification calls it [introspect]).
    - [Torch.prepend_value], [ModelMode] (the context manager
      [TorchModelMode]) and [Tensorify] (the decorator
      [tensorify_scalars]) are the other helpers of the file that do
      not depend on a device, the clock or the host.

    Python exceptions are values of [PyErr]; a call that can raise
    returns a [Result]. *)

From Stdlib Require Import String DecimalString.
From Stdlib Require Import ZArith NArith QArith Qabs Arith Lia Bool List Sorted.
Import ListNotations.

Set Implicit Arguments.
Open Scope nat_scope.

(** ** Python exceptions *)

Inductive PyErr : Type :=
| AssertionError
| AttributeError
| IndexError
| RuntimeError.

Inductive Result (T : Type) : Type :=
| Ok (v : T)
| Raise (e : PyErr).

Arguments Ok {T} v.
Arguments Raise {T} e.

Definition bind {T U : Type} (c : Result T) (k : T -> Result U) : Result U :=
  match c with
  | Ok v => k v
  | Raise e => Raise e
  end.

Notation "x <- c ;; k" := (bind c (fun x => k))
  (at level 61, c at next level, right associativity).

(** ** Lists cut into blocks *)

Section Blocks.
Variable X : Type.

(** [chunks count n l]: the first [count] consecutive blocks of
    length [n] of [l]. *)
Fixpoint chunks (count n : nat) (l : list X) : list (list X) :=
  match count with
  | O => []
  | S c => firstn n l :: chunks c n (skipn n l)
  end.

(** The block of length [n] that starts at block position [i]. *)
Definition block (n i : nat) (l : list X) : list X :=
  firstn n (skipn (i * n) l).
End Blocks.

(** ** Tensors

    A tensor is its shape and its elements in row-major (contiguous)
    order, as [torch] stores the result of every operation used here. *)

Module Torch.

Record Tensor (A : Type) : Type := mkTensor {
  shape : list nat;
  data : list A
}.

Arguments mkTensor {A} shape data.

Definition numel (s : list nat) : nat := fold_right Nat.mul 1 s.

(** A tensor value is well formed when it holds as many elements as its
    shape says. *)
Definition wf {A : Type} (t : Tensor A) : Prop :=
  length (data t) = numel (shape t).

(** *** Row-major index arithmetic *)

Fixpoint unravel (s : list nat) (f : nat) : list nat :=
  match s with
  | [] => []
  | _ :: rest => f / numel rest :: unravel rest (f mod numel rest)
  end.

Fixpoint ravel (s idx : list nat) : nat :=
  match s, idx with
  | _ :: rest, i :: idx' => i * numel rest + ravel rest idx'
  | _, _ => 0
  end.

Fixpoint in_bounds (s idx : list nat) : bool :=
  match s, idx with
  | d :: rest, i :: idx' => (i <? d) && in_bounds rest idx'
  | [], [] => true
  | _, _ => false
  end.

(** *** Slicing the position axis: [t[:, start:stop]]

    Python's normalisation of one slice bound against an axis of
    length [len]: a negative bound counts from the end, and the result
    is clamped to [0 .. len]. *)
Definition slice_bound (len : nat) (dflt : nat) (i : option Z) : nat :=
  match i with
  | None => dflt
  | Some z =>
      let z' := if (z <? 0)%Z then (z + Z.of_nat len)%Z else z in
      Z.to_nat (Z.max 0 (Z.min z' (Z.of_nat len)))
  end.

(** [t[:, start:stop]]; indexing two axes of a tensor with fewer than
    two raises [IndexError]. *)
Definition slice_dim1 {A : Type} (start stop : option Z) (t : Tensor A)
  : Result (Tensor A) :=
  match shape t with
  | b :: l :: f =>
      let lo := slice_bound l 0 start in
      let hi := slice_bound l l stop in
      let inner := numel f in
      Ok (mkTensor (b :: (hi - lo) :: f)
            (concat (map (fun row => firstn ((hi - lo) * inner)
                                       (skipn (lo * inner) row))
                         (chunks b (l * inner) (data t)))))
  | _ => Raise IndexError
  end.

(** *** [mask.nonzero(as_tuple=True)] *)

(** Positions of the non-zero entries of a flat buffer, ascending. *)
Fixpoint nonzero_from (i : nat) (l : list Z) : list nat :=
  match l with
  | [] => []
  | v :: r =>
      if (v =? 0)%Z then nonzero_from (S i) r
      else i :: nonzero_from (S i) r
  end.

Definition nonzero_flat (l : list Z) : list nat := nonzero_from 0 l.

(** One index tensor per axis of [m], each listing that coordinate of
    the non-zero entries in row-major order. A zero-dimensional tensor
    is treated as a one-element vector. *)
Definition nonzero_as_tuple (m : Tensor Z) : list (list nat) :=
  let s := match shape m with [] => [1] | s => s end in
  let fs := nonzero_flat (data m) in
  map (fun d => map (fun f => nth d (unravel s f) 0) fs) (seq 0 (length s)).

(** *** Indexing with a tuple of index tensors: [t[(i1, ..., ik)]]

    The [k] index tensors address the first [k] axes; entry [j] of the
    result is the sub-tensor [t[i1[j], ..., ik[j]]]. More index tensors
    than axes, or a coordinate out of range, raise [IndexError]. *)
Definition index_tuple {A : Type} (t : Tensor A) (cols : list (list nat))
  : Result (Tensor A) :=
  let k := length cols in
  if length (shape t) <? k then Raise IndexError
  else
    let lead := firstn k (shape t) in
    let rest := skipn k (shape t) in
    let n := length (hd [] cols) in
    let coords := map (fun j => map (fun col => nth j col 0) cols) (seq 0 n) in
    if forallb (in_bounds lead) coords
    then Ok (mkTensor (n :: rest)
               (concat (map (fun c => block (numel rest) (ravel lead c) (data t))
                            coords)))
    else Raise IndexError.

(** *** [t.reshape(target)] with at most one inferred ([-1]) entry

    [None] stands for [-1]. This is [torch]'s size inference: the
    product of the given entries must equal the number of elements, or
    divide it when an entry is inferred; an inferred entry next to a
    zero product is refused as ambiguous. *)
Definition given_size (target : list (option nat)) : nat :=
  fold_right (fun d acc => match d with Some n => n * acc | None => acc end)
             1 target.

Definition inferred_count (target : list (option nat)) : nat :=
  length (filter (fun d => match d with None => true | Some _ => false end)
                 target).

Definition reshape {A : Type} (t : Tensor A) (target : list (option nat))
  : Result (Tensor A) :=
  let total := numel (shape t) in
  let newsize := given_size target in
  match inferred_count target with
  | 0 =>
      if total =? newsize
      then Ok (mkTensor (map (fun d => match d with Some n => n | None => 0 end)
                             target) (data t))
      else Raise RuntimeError
  | 1 =>
      if (total =? newsize) || ((0 <? newsize) && (total mod newsize =? 0))
      then
        if newsize =? 0 then Raise RuntimeError
        else Ok (mkTensor
                   (map (fun d => match d with
                                  | Some n => n
                                  | None => total / newsize
                                  end) target)
                   (data t))
      else Raise RuntimeError
  | _ => Raise RuntimeError
  end.

(** *** [torch.cat((a, b), dim=1)] *)
Definition cat_dim1 {A : Type} (a b : Tensor A) : Result (Tensor A) :=
  match shape a, shape b with
  | ba :: la :: fa, bb :: lb :: fb =>
      if Nat.eqb ba bb && (if list_eq_dec Nat.eq_dec fa fb then true else false)
      then
        let inner := numel fa in
        Ok (mkTensor (ba :: (la + lb) :: fa)
              (concat (map (fun rr => fst rr ++ snd rr)
                           (combine (chunks ba (la * inner) (data a))
                                    (chunks bb (lb * inner) (data b))))))
      else Raise RuntimeError
  | _, _ => Raise IndexError
  end.

(** [tokens_shape[0]] *)
Definition shape_getitem0 (s : list nat) : Result nat :=
  match s with
  | d :: _ => Ok d
  | [] => Raise IndexError
  end.

(** *** [drop_tokens] *)
Definition drop_tokens {A : Type} (tokens : Tensor A) (mask : Tensor Z)
    (num_prefix_tokens : Z) (ordered : bool) : Result (Tensor A) :=
  split <- (if (num_prefix_tokens =? 0)%Z
            then Ok (None, tokens)
            else
              p <- slice_dim1 None (Some num_prefix_tokens) tokens ;;
              b <- slice_dim1 (Some num_prefix_tokens) None tokens ;;
              Ok (Some p, b)) ;;
  let prefix_tokens := fst split in
  let tokens := snd split in
  if list_eq_dec Nat.eq_dec (removelast (shape tokens)) (shape mask)
  then
    let tokens_shape := shape tokens in
    tokens <- index_tuple tokens (nonzero_as_tuple mask) ;;
    d0 <- shape_getitem0 tokens_shape ;;
    tokens <- reshape tokens (Some d0 :: None :: map Some (skipn 2 tokens_shape)) ;;
    match prefix_tokens with
    | Some p => cat_dim1 p tokens
    | None => Ok tokens
    end
  else Raise AssertionError.

(** ** Reading a buffer and a mask *)

(** The entries of [xs] at the non-zero positions of [m], in order. *)
Fixpoint select {X : Type} (m : list Z) (xs : list X) : list X :=
  match m, xs with
  | v :: m', x :: xs' =>
      if (v =? 0)%Z then select m' xs' else x :: select m' xs'
  | _, _ => []
  end.

(** Number of non-zero entries. *)
Definition count_nonzero (m : list Z) : nat := length (nonzero_flat m).

(** Row [r] of a tensor [[B, L, ...]] as its [L] position entries, each
    the flat block of feature values. *)
Definition positions {A : Type} (t : Tensor A) (r : nat) : list (list A) :=
  match shape t with
  | _ :: l :: f => chunks l (numel f) (block (l * numel f) r (data t))
  | _ => []
  end.

(** Row [r] of a two-dimensional mask. *)
Definition mask_row (m : Tensor Z) (r : nat) : list Z :=
  match shape m with
  | [_; w] => block w r (data m)
  | _ => []
  end.

(** Every row of the mask keeps [k] positions. *)
Definition keeps (m : Tensor Z) (k : nat) : Prop :=
  forall r, r < hd 0 (shape m) -> count_nonzero (mask_row m r) = k.

(** ** The parts of a batched buffer [[B, L, ...F]]

    The values [drop_tokens] passes from step to step, named for the
    proofs. *)

Section Parts.
Variable A : Type.
Variable t : Tensor A.
Variables (B L : nat) (F : list nat).

(** Row [r] of the batch, flat. *)
Definition row (r : nat) : list A := block (L * numel F) r (data t).

(** The first [p] positions of row [r]: a row of [t[:, :p]]. *)
Definition prefix_row (p r : nat) : list A :=
  firstn ((p - 0) * numel F) (skipn (0 * numel F) (row r)).

(** The positions of row [r] from [p] on: a row of [t[:, p:]]. *)
Definition body_row (p r : nat) : list A :=
  firstn ((L - p) * numel F) (skipn (p * numel F) (row r)).

Definition prefix_part (p : nat) : Tensor A :=
  mkTensor (B :: (p - 0) :: F) (concat (map (prefix_row p) (seq 0 B))).

Definition body_part (p : nat) : Tensor A :=
  mkTensor (B :: (L - p) :: F) (concat (map (body_row p) (seq 0 B))).

Variable m : Tensor Z.
Variable P : Z.

(** The elements the indexing step keeps. *)
Definition selected : list A :=
  let p := slice_bound L 0 (Some P) in
  let d := last (B :: (L - p) :: F) 0 in
  concat (select (data m)
            (chunks (length (data m)) d (data (body_part p)))).
End Parts.

Section Rows.
Variable A : Type.
Variable t : Tensor A.
Variables (B L H P : nat).
Variable m : Tensor Z.

(** The body entries of row [r] that mask row [r] keeps, flat. *)
Definition kept_row (r : nat) : list A :=
  concat (select (block (L - P) r (data m))
            (chunks (L - P) H (body_row t L [H] P r))).

(** The output buffer when the selection divides into [B] rows of
    [q] entries. *)
Definition out_data (q : nat) : list A :=
  if (Z.of_nat P =? 0)%Z then selected t B L [H] m (Z.of_nat P)
  else concat (map (fun rr => fst rr ++ snd rr)
                   (combine (chunks B (P * numel [H])
                               (concat (map (prefix_row t L [H] P)
                                            (seq 0 B))))
                            (chunks B (q * numel [H])
                               (selected t B L [H] m (Z.of_nat P))))).

(** The compacted buffer: per row, the prefix followed by the kept
    body entries. *)
Definition compacted : list A :=
  concat (map (fun r => prefix_row t L [H] P r ++ kept_row r) (seq 0 B)).
End Rows.

(** ** [prepend_value] *)

(** [torch.full(size, fill_value)] *)
Definition full {A : Type} (size : list nat) (fill_value : A) : Tensor A :=
  mkTensor size (repeat fill_value (numel size)).

(** [torch.cat((a, b), dim=-1)]. A zero-dimensional tensor cannot be
    concatenated; a one-dimensional empty tensor is skipped; otherwise
    the tensors must agree on every axis but the last. *)
Definition cat_last {A : Type} (a b : Tensor A) : Result (Tensor A) :=
  match shape a, shape b with
  | [], _ => Raise RuntimeError
  | _, [] => Raise RuntimeError
  | [0], _ => Ok b
  | _, [0] => Ok a
  | sa, sb =>
      if list_eq_dec Nat.eq_dec (removelast sa) (removelast sb)
      then
        let n := numel (removelast sa) in
        Ok (mkTensor (removelast sa ++ [last sa 0 + last sb 0])
              (concat (map (fun rr => fst rr ++ snd rr)
                           (combine (chunks n (last sa 0) (data a))
                                    (chunks n (last sb 0) (data b))))))
      else Raise RuntimeError
  end.

Definition prepend_value {A : Type} (tensor : Tensor A) (value : A)
  : Result (Tensor A) :=
  let filler := full (removelast (shape tensor) ++ [1]) value in
  cat_last filler tensor.


End Torch.

(** * The structural introspector: [torch_shape_get] *)

Module Introspect.

Local Open Scope string_scope.

(** A leaf object, by the attributes the introspector probes with
    [hasattr]: [None] when the attribute is absent. [py_type] is
    [type(x)]; [py_repr] tells apart objects with equal attributes. *)
Record PyObj : Type := mkObj {
  py_type : string;
  py_repr : string;
  py_dtype : option string;
  py_shape : option (list nat);
  py_element_size : option N;
  py_nelement : option N
}.

(** A nested structure as [jax] sees it: lists, tuples, dictionaries
    and [None] are nodes, anything else is a leaf. A dictionary is held
    as its entries in the order [jax] visits them. *)
#[warnings="-register-all"]
Inductive PyTree (X : Type) : Type :=
| Leaf (x : X)
| NoneNode
| ListNode (xs : list (PyTree X))
| TupleNode (xs : list (PyTree X))
| DictNode (kvs : list (string * PyTree X)).

Arguments Leaf {X} x.
Arguments NoneNode {X}.
Arguments ListNode {X} xs.
Arguments TupleNode {X} xs.
Arguments DictNode {X} kvs.

(** One element of a descriptor tuple. *)
Inductive Item : Type :=
| IDtype (d : string)
| IShape (s : list nat)
| IType (ty : string)
| IStr (s : string).

(** What [h_shape_get] returns: a tuple, or for a leaf without
    capabilities its type or the leaf itself. *)
Inductive Desc : Type :=
| DTuple (items : list Item)
| DType (ty : string)
| DObj (x : PyObj).

(** The value of [torch_shape_get]: the dictionary with the total when
    [size_p] is set, else the tree alone. *)
Inductive Output : Type :=
| WithTotal (total_size_mb : Q) (tree : PyTree Desc)
| TreeOnly (tree : PyTree Desc).

Definition result_tree (o : Output) : PyTree Desc :=
  match o with
  | WithTotal _ tree => tree
  | TreeOnly tree => tree
  end.


(** ** [torch_memory_tensor]

    Sizes are Python floats. The byte count is an integer and the
    divisor a power of two, so the quotient and the running sums are
    exact in binary64 as long as the total stays below [2^53] bytes;
    they are modelled as exact rationals. *)
Definition torch_memory_tensor (tensor : PyObj) (s : nat) : Result Q :=
  match py_element_size tensor, py_nelement tensor with
  | Some e, Some n =>
      let size_in_bytes := (e * n)%N in
      Ok (inject_Z (Z.of_N size_in_bytes) / inject_Z (1024 ^ Z.of_nat s))%Q
  | _, _ => Raise AttributeError
  end.

(** ** The format [f"{size:.2f}MB"] *)

(** Nearest integer, ties to even, of a non-negative rational. *)
Definition round_half_even (q : Q) : Z :=
  let n := Qnum q in
  let d := Z.pos (Qden q) in
  let fl := (n / d)%Z in
  match (2 * (n mod d) ?= d)%Z with
  | Lt => fl
  | Gt => (fl + 1)%Z
  | Eq => if Z.even fl then fl else (fl + 1)%Z
  end.

Definition decimal (n : Z) : string :=
  NilZero.string_of_uint (N.to_uint (Z.to_N n)).

Definition format_2f (q : Q) : string :=
  let neg := (Qnum q <? 0)%Z in
  let c := round_half_even (Qabs q * 100) in
  let frac := (c mod 100)%Z in
  (if neg then "-" else "")
  ++ decimal (c / 100) ++ "."
  ++ (if (frac <? 10)%Z then "0" else "") ++ decimal frac.

(** ** [h_shape_get], with the running total passed through *)

Definition has_size (x : PyObj) : bool :=
  match py_element_size x, py_nelement x with
  | Some _, Some _ => true
  | _, _ => false
  end.

Definition h_shape_get (size_p type_only_p : bool) (x : PyObj) (total_size : Q)
  : Result (Desc * Q) :=
  let res : list Item :=
    match py_dtype x with
    | Some dtype =>
        ([IDtype dtype]
         ++ match py_shape x with
            | Some shape => [IShape shape]
            | None => []
            end)%list
    | None =>
        match py_shape x with
        | Some shape => [IType (py_type x); IShape shape]
        | None => []
        end
    end in
  st <- (if size_p && has_size x
         then
           size <- torch_memory_tensor x 2 ;;
           Ok ((res ++ [IStr (format_2f size ++ "MB")])%list,
               (total_size + size)%Q)
         else Ok (res, total_size)) ;;
  let res := fst st in
  let total_size := snd st in
  if (length res =? 0)%nat
  then Ok (if type_only_p then DType (py_type x) else DObj x, total_size)
  else Ok (DTuple res, total_size).

(** ** [jax.tree_map] with a function that updates a state *)

Section ListMap.
Variables (T U S : Type).
Variable g : T -> S -> Result (U * S).

Fixpoint list_map_st (xs : list T) (s : S) : Result (list U * S) :=
  match xs with
  | [] => Ok ([], s)
  | x :: rest =>
      a <- g x s ;;
      b <- list_map_st rest (snd a) ;;
      Ok (fst a :: fst b, snd b)
  end.
End ListMap.

Section TreeMap.
Variables (X Y S : Type).
Variable f : X -> S -> Result (Y * S).

Fixpoint tree_map (t : PyTree X) (s : S) : Result (PyTree Y * S) :=
  match t with
  | Leaf x => r <- f x s ;; Ok (Leaf (fst r), snd r)
  | NoneNode => Ok (NoneNode, s)
  | ListNode xs =>
      r <- list_map_st tree_map xs s ;; Ok (ListNode (fst r), snd r)
  | TupleNode xs =>
      r <- list_map_st tree_map xs s ;; Ok (TupleNode (fst r), snd r)
  | DictNode kvs =>
      r <- list_map_st
             (fun kv s =>
                r <- tree_map (snd kv) s ;; Ok ((fst kv, fst r), snd r))
             kvs s ;;
      Ok (DictNode (fst r), snd r)
  end.
End TreeMap.

(** ** [torch_shape_get] *)
Definition torch_shape_get (input : PyTree PyObj) (size_p type_only_p : bool)
  : Result Output :=
  let total_size := 0%Q in
  r <- tree_map (h_shape_get size_p type_only_p) input total_size ;;
  let res := fst r in
  let total_size := snd r in
  if size_p then Ok (WithTotal total_size res) else Ok (TreeOnly res).

(** ** Reading a structure *)

Section Reading.
Variable X : Type.

(** The leaves, in the order [jax] visits them. *)
Fixpoint leaves (t : PyTree X) : list X :=
  match t with
  | Leaf x => [x]
  | NoneNode => []
  | ListNode xs => flat_map leaves xs
  | TupleNode xs => flat_map leaves xs
  | DictNode kvs => flat_map (fun kv => leaves (snd kv)) kvs
  end.

(** The containers, keys and order of a structure, without its
    leaves. *)
Fixpoint skeleton (t : PyTree X) : PyTree unit :=
  match t with
  | Leaf _ => Leaf tt
  | NoneNode => NoneNode
  | ListNode xs => ListNode (map skeleton xs)
  | TupleNode xs => TupleNode (map skeleton xs)
  | DictNode kvs => DictNode (map (fun kv => (fst kv, skeleton (snd kv))) kvs)
  end.
End Reading.

(** Megabytes held by a leaf that exposes both size capabilities. *)
Definition leaf_size_mb (x : PyObj) : Q :=
  match py_element_size x, py_nelement x with
  | Some e, Some n => (Z.of_N (e * n) # 1048576)%Q
  | _, _ => 0%Q
  end.


(** The part of a leaf's size that the running total receives. *)
Definition counted (size_p : bool) (x : PyObj) : Q :=
  if size_p then leaf_size_mb x else 0%Q.

Definition sum_counted (size_p : bool) (xs : list PyObj) : Q :=
  fold_right (fun x acc => (counted size_p x + acc)%Q) 0%Q xs.

(** The descriptor [h_shape_get] gives a leaf, the total left aside. *)
Definition descriptor (size_p type_only_p : bool) (x : PyObj) : option Desc :=
  match h_shape_get size_p type_only_p x 0 with
  | Ok (d, _) => Some d
  | Raise _ => None
  end.

(** ** Example leaves *)

Definition tensor_obj : PyObj :=
  mkObj "Tensor" "tensor([[0., 0., 0.], [0., 0., 0.]])"
        (Some "torch.float32") (Some [2; 3]) (Some 4%N) (Some 6%N).

Definition shaped_obj : PyObj :=
  mkObj "Grid" "Grid(4)" None (Some [4]) None None.

Definition dtype_obj : PyObj :=
  mkObj "float32" "np.float32" (Some "float32") None None None.

Definition int_obj : PyObj := mkObj "int" "3" None None None None.

End Introspect.

(** * [TorchModelMode] *)

Module ModelMode.

Local Open Scope string_scope.

(** A [torch.nn.Module], by what [train] and [eval] touch: its
    [training] flag and its child modules. *)
#[warnings="-register-all"]
Inductive NNModule : Type :=
| Mod (training : bool) (children : list NNModule).

Definition training (m : NNModule) : bool :=
  match m with Mod b _ => b end.

(** [module.train(mode)] sets the flag of the module and, through its
    children, of every descendant; [module.eval()] is [train(False)]. *)
Fixpoint train (mode : bool) (m : NNModule) : NNModule :=
  match m with
  | Mod _ cs => Mod mode (map (train mode) cs)
  end.

Definition eval (m : NNModule) : NNModule := train false m.

(** [str.lower()]. Strings are byte strings here: the ASCII capitals
    are mapped, every other byte is kept, and a kept byte is never a
    letter of ["train"] or ["eval"], as for Python's lowering of a
    non-ASCII character. *)
Definition lower_char (c : Ascii.ascii) : Ascii.ascii :=
  let n := Ascii.nat_of_ascii c in
  if (65 <=? n)%nat && (n <=? 90)%nat then Ascii.ascii_of_nat (n + 32) else c.

Fixpoint lower (s : string) : string :=
  match s with
  | EmptyString => EmptyString
  | String c r => String (lower_char c) (lower r)
  end.

Inductive Exc : Type :=
| ValueError (msg : string).

(** The context manager object; the model is the object it shares
    with its user. *)
Record TorchModelMode : Type := mkCtx {
  model : NNModule;
  mode : string;
  original_mode : option bool
}.

(** [__init__] *)
Definition init (model : NNModule) (mode : string) : TorchModelMode :=
  mkCtx model mode None.

(** [__enter__]: the object after the call and the exception raised,
    if any. *)
Definition enter (self : TorchModelMode) : TorchModelMode * option Exc :=
  let self := mkCtx (model self) (mode self) (Some (training (model self))) in
  if lower (mode self) =? "train"
  then (mkCtx (train true (model self)) (mode self) (original_mode self), None)
  else if lower (mode self) =? "eval"
  then (mkCtx (eval (model self)) (mode self) (original_mode self), None)
  else (self,
        Some (ValueError ("Invalid mode '" ++ mode self
                          ++ "', must be 'train' or 'eval'"))).

(** [__exit__]; it returns [None], so an exception of the body goes
    on. *)
Definition exit (self : TorchModelMode) : TorchModelMode :=
  match original_mode self with
  | Some true => mkCtx (train true (model self)) (mode self) (original_mode self)
  | _ => mkCtx (eval (model self)) (mode self) (original_mode self)
  end.

(** What stops a [with] statement: [__enter__] raised, or the body. *)
Inductive Stopped (X : Type) : Type :=
| FromEnter (e : Exc)
| FromBody (x : X).

Arguments FromEnter {X} e.
Arguments FromBody {X} x.

(** [with TorchModelMode(model, mode): body]. The body works on the
    shared model: it gets the model as [__enter__] left it and gives
    back the model as it leaves it, with its exception if it raised.
    The result is the model after the statement and what stopped it. *)
Definition with_mode {X : Type} (model0 : NNModule) (mode0 : string)
    (body : NNModule -> NNModule * option X)
  : NNModule * option (Stopped X) :=
  let entered := enter (init model0 mode0) in
  let self := fst entered in
  match snd entered with
  | Some err => (model self, Some (FromEnter err))
  | None =>
      let ran := body (model self) in
      let self := exit (mkCtx (fst ran) (mode self) (original_mode self)) in
      (model self, option_map FromBody (snd ran))
  end.

(** Every module of [m] has its flag equal to [b]. *)
Fixpoint all_in_mode (b : bool) (m : NNModule) : bool :=
  match m with
  | Mod t cs => Bool.eqb t b && forallb (all_in_mode b) cs
  end.

End ModelMode.

(** * [tensorify_scalars] *)

Module Tensorify.

(** A call returns a value or raises an exception of type [E]. *)
Inductive Outcome (E T : Type) : Type :=
| Returned (v : T)
| Raised (e : E).

Arguments Returned {E T} v.
Arguments Raised {E T} e.

Definition and_then {E T U : Type} (c : Outcome E T) (k : T -> Outcome E U)
  : Outcome E U :=
  match c with
  | Returned v => k v
  | Raised e => Raised e
  end.

Notation "x <~ c ;; k" := (and_then c (fun x => k))
  (at level 61, c at next level, right associativity).

Section Wrapper.
(** Python values, keyword arguments and exceptions; what the wrapper
    calls: [torch.is_tensor], [torch.tensor], [result.item()] and the
    decorated function. *)
Variables (V K E : Type).
Variable index_error : E.
Variable key_error : E.
Variable is_tensor : V -> bool.
Variable tensor : V -> Outcome E V.
Variable item : V -> Outcome E V.

(** The position a Python index names in a sequence of length [len]:
    a negative index counts from the end. *)
Definition py_index (len : nat) (i : Z) : option nat :=
  if ((0 <=? i) && (i <? Z.of_nat len))%Z then Some (Z.to_nat i)
  else if ((- Z.of_nat len <=? i) && (i <? 0))%Z
       then Some (Z.to_nat (i + Z.of_nat len))
       else None.

(** [seq[i]] *)
Definition getitem (l : list V) (i : Z) : Outcome E V :=
  match py_index (length l) i with
  | Some j =>
      match nth_error l j with
      | Some v => Returned v
      | None => Raised index_error
      end
  | None => Raised index_error
  end.

Fixpoint replace_nth (j : nat) (v : V) (l : list V) : list V :=
  match l, j with
  | [], _ => []
  | _ :: r, O => v :: r
  | x :: r, S j' => x :: replace_nth j' v r
  end.

(** [lst[i] = v] *)
Definition setitem (l : list V) (i : Z) (v : V) : Outcome E (list V) :=
  match py_index (length l) i with
  | Some j => Returned (replace_nth j v l)
  | None => Raised index_error
  end.

(** The dictionary [original_types], in insertion order. *)
Definition Dict : Type := list (Z * bool).

Fixpoint dict_set (k : Z) (b : bool) (d : Dict) : Dict :=
  match d with
  | [] => [(k, b)]
  | (k', b') :: r =>
      if (k' =? k)%Z then (k', b) :: r else (k', b') :: dict_set k b r
  end.

Fixpoint dict_get (k : Z) (d : Dict) : Outcome E bool :=
  match d with
  | [] => Raised key_error
  | (k', b') :: r => if (k' =? k)%Z then Returned b' else dict_get k r
  end.

(** [{argnum: torch.is_tensor(args[argnum]) for argnum in argnums}] *)
Fixpoint original_types_of (args : list V) (argnums : list Z) (d : Dict)
  : Outcome E Dict :=
  match argnums with
  | [] => Returned d
  | argnum :: rest =>
      v <~ getitem args argnum ;;
      original_types_of args rest (dict_set argnum (is_tensor v) d)
  end.

(** The loop that converts the arguments that are not tensors. *)
Fixpoint convert (args : list V) (original_types : Dict) (argnums : list Z)
    (new_args : list V) : Outcome E (list V) :=
  match argnums with
  | [] => Returned new_args
  | argnum :: rest =>
      b <~ dict_get argnum original_types ;;
      if negb b
      then
        v <~ getitem args argnum ;;
        tv <~ tensor v ;;
        new_args' <~ setitem new_args argnum tv ;;
        convert args original_types rest new_args'
      else convert args original_types rest new_args
  end.

(** The loop that returns [result.item()] at the first argument that
    was not a tensor. *)
Fixpoint give_back (original_types : Dict) (keys : list Z) (result : V)
  : Outcome E V :=
  match keys with
  | [] => Returned result
  | argnum :: rest =>
      b <~ dict_get argnum original_types ;;
      if negb b then item result else give_back original_types rest result
  end.

(** The [wrapper] that [tensorify_scalars(argnums)(func)] returns, applied
    to positional and keyword arguments. *)
Definition wrapper (argnums : list Z) (func : list V -> K -> Outcome E V)
    (args : list V) (kwargs : K) : Outcome E V :=
  original_types <~ original_types_of args argnums [] ;;
  new_args <~ convert args original_types argnums args ;;
  result <~ func new_args kwargs ;;
  give_back original_types (map fst original_types) result.
End Wrapper.

End Tensorify.

(** * Examples *)

Import Torch.

(** The example of the docstring, with two feature values per token. *)
Definition ex_tokens : Tensor nat :=
  mkTensor [2; 5; 2]
    [16; 65;  72; 76;  22; 92;  13; 37;  69; 3;
     24; 33;  80; 8;   61; 89;  31; 49;  59; 15].

Definition ex_mask : Tensor Z := mkTensor [2; 4] [1; 0; 0; 1; 0; 1; 1; 0]%Z.

(** * Facts about the tensor operations *)

(** ** Facts about blocks *)

Section BlockFacts.
Variable X : Type.
Implicit Types (l : list X) (c n i : nat).

Lemma chunks_length c n l : length (chunks c n l) = c.
Proof.
  revert l; induction c as [|c IH]; intros l; simpl; [reflexivity|].
  now rewrite IH.
Qed.

Lemma chunks_from c n i l :
  chunks c n (skipn (i * n) l) = map (fun r => block n r l) (seq i c).
Proof.
  revert i; induction c as [|c IH]; intros i; simpl; [reflexivity|].
  unfold block at 1. f_equal.
  rewrite skipn_skipn.
  replace (n + i * n) with (S i * n) by (simpl; lia).
  apply IH.
Qed.

Lemma chunks_seq c n l :
  chunks c n l = map (fun r => block n r l) (seq 0 c).
Proof. exact (chunks_from c n 0 l). Qed.

Lemma chunks_concat_map (T : Type) (f : T -> list X) n (rs : list T) :
  (forall r, In r rs -> length (f r) = n) ->
  chunks (length rs) n (concat (map f rs)) = map f rs.
Proof.
  induction rs as [|a rs IH]; intros Hlen; simpl; [reflexivity|].
  assert (Ha : length (f a) = n) by (apply Hlen; now left).
  rewrite firstn_app, skipn_app, Ha, Nat.sub_diag. simpl.
  rewrite app_nil_r.
  rewrite (firstn_all2 (f a)) by lia.
  rewrite (skipn_all2 (f a)) by lia. simpl.
  f_equal. apply IH. intros r Hr. apply Hlen. now right.
Qed.

Lemma chunks_concat_seq (f : nat -> list X) n c :
  (forall r, r < c -> length (f r) = n) ->
  chunks c n (concat (map f (seq 0 c))) = map f (seq 0 c).
Proof.
  intros H. rewrite <- (length_seq c 0) at 1.
  apply chunks_concat_map. intros r Hr. apply in_seq in Hr. apply H. lia.
Qed.

Lemma block_concat_seq (f : nat -> list X) n c r :
  (forall r, r < c -> length (f r) = n) ->
  r < c -> block n r (concat (map f (seq 0 c))) = f r.
Proof.
  intros H Hr. pose proof (chunks_concat_seq f H) as E.
  rewrite chunks_seq in E.
  apply (ext_in_map E). apply in_seq. lia.
Qed.

Lemma skipn_chunks a b n l :
  skipn a (chunks (a + b) n l) = chunks b n (skipn (a * n) l).
Proof.
  revert l; induction a as [|a IH]; intros l; simpl; [reflexivity|].
  rewrite IH, skipn_skipn. f_equal. f_equal. lia.
Qed.

Lemma concat_chunks c n l :
  length l = c * n -> concat (chunks c n l) = l.
Proof.
  revert l; induction c as [|c IH]; intros l Hl; simpl.
  - destruct l; [reflexivity|discriminate].
  - rewrite IH; [apply firstn_skipn|].
    rewrite length_skipn. simpl in Hl. lia.
Qed.

Lemma block_length n i l :
  S i * n <= length l -> length (block n i l) = n.
Proof.
  intros H. unfold block. rewrite length_firstn, length_skipn.
  simpl in H. lia.
Qed.

Lemma chunks_block_length c n l r :
  c * n <= length l -> In r (chunks c n l) -> length r = n.
Proof.
  intros Hl. rewrite chunks_seq, in_map_iff.
  intros [i [<- Hi]]. apply in_seq in Hi.
  apply block_length. simpl. nia.
Qed.

Lemma concat_length_const n (ls : list (list X)) :
  (forall r, In r ls -> length r = n) ->
  length (concat ls) = length ls * n.
Proof.
  induction ls as [|a ls IH]; intros H; simpl; [reflexivity|].
  rewrite length_app, IH by (intros; apply H; now right).
  rewrite (H a) by now left. reflexivity.
Qed.
End BlockFacts.

(** ** Facts about row-major indices *)

Lemma numel_app (a b : list nat) : numel (a ++ b) = numel a * numel b.
Proof.
  induction a as [|d a IH]; simpl; [lia|]. rewrite IH. lia.
Qed.

Lemma unravel_length (s : list nat) (f : nat) :
  length (unravel s f) = length s.
Proof.
  revert f; induction s as [|d s IH]; intros f; simpl; [reflexivity|].
  now rewrite IH.
Qed.

Lemma ravel_unravel (s : list nat) (f : nat) :
  f < numel s -> ravel s (unravel s f) = f.
Proof.
  revert f; induction s as [|d s IH]; intros f Hf; simpl in *.
  - lia.
  - assert (Hpos : numel s <> 0) by (intros E; rewrite E in Hf; lia).
    rewrite IH by (apply Nat.mod_upper_bound; exact Hpos).
    rewrite (Nat.div_mod_eq f (numel s)) at 3. lia.
Qed.

Lemma in_bounds_unravel (s : list nat) (f : nat) :
  f < numel s -> in_bounds s (unravel s f) = true.
Proof.
  revert f; induction s as [|d s IH]; intros f Hf; simpl in *.
  - reflexivity.
  - assert (Hpos : numel s <> 0) by (intros E; rewrite E in Hf; lia).
    rewrite IH by (apply Nat.mod_upper_bound; exact Hpos).
    rewrite andb_true_r. apply Nat.ltb_lt.
    apply Nat.Div0.div_lt_upper_bound. lia.
Qed.

(** ** Facts about [nonzero] *)

Lemma nonzero_from_bounds (l : list Z) (i f : nat) :
  In f (nonzero_from i l) -> i <= f < i + length l.
Proof.
  revert i; induction l as [|v l IH]; intros i; simpl; [tauto|].
  destruct (v =? 0)%Z; simpl.
  - intros H. apply IH in H. lia.
  - intros [<-|H]; [lia|]. apply IH in H. lia.
Qed.

Lemma nonzero_flat_bounds (l : list Z) (f : nat) :
  In f (nonzero_flat l) -> f < length l.
Proof. intros H. apply nonzero_from_bounds in H. lia. Qed.

Lemma map_nth_seq (l : list nat) :
  map (fun d => nth d l 0) (seq 0 (length l)) = l.
Proof.
  apply nth_ext with (d := 0) (d' := 0).
  - now rewrite length_map, length_seq.
  - intros n Hn. rewrite length_map, length_seq in Hn.
    rewrite (nth_indep _ 0 (nth 0 l 0)) by now rewrite length_map, length_seq.
    rewrite (map_nth (fun d => nth d l 0)), seq_nth by exact Hn.
    reflexivity.
Qed.

Lemma map_ext_seq (T : Type) (f g : nat -> T) (a n : nat) :
  (forall j, a <= j < a + n -> f j = g j) ->
  map f (seq a n) = map g (seq a n).
Proof.
  intros H. apply map_ext_in. intros j Hj. apply in_seq in Hj. now apply H.
Qed.

Lemma map_nth_all (T : Type) (g : nat -> T) (fs : list nat) :
  map (fun j => g (nth j fs 0)) (seq 0 (length fs)) = map g fs.
Proof.
  rewrite <- (map_map (fun j => nth j fs 0) g). now rewrite map_nth_seq.
Qed.

(** The coordinates that [index_tuple] reads back from the index
    tensors of [nonzero_as_tuple] are the unravelled flat positions. *)
Lemma nonzero_coords (s : list nat) (md : list Z) :
  s <> [] ->
  let cols := nonzero_as_tuple (mkTensor s md) in
  length cols = length s /\
  length (hd [] cols) = count_nonzero md /\
  map (fun j => map (fun col => nth j col 0) cols)
      (seq 0 (count_nonzero md))
  = map (unravel s) (nonzero_flat md).
Proof.
  intros Hs. unfold nonzero_as_tuple, count_nonzero. simpl.
  destruct s as [|d s']; [contradiction|].
  set (s := d :: s') in *. set (fs := nonzero_flat md).
  split; [now rewrite length_map, length_seq|].
  split; [subst s; simpl; now rewrite length_map|].
  rewrite <- (map_nth_all (unravel s) fs).
  apply map_ext_seq. intros j Hj.
  rewrite map_map.
  rewrite <- (map_nth_seq (unravel s (nth j fs 0))), unravel_length.
  apply map_ext. intros k.
  rewrite (nth_indep _ 0 (nth k (unravel s 0) 0)) by (rewrite length_map; lia).
  now rewrite (map_nth (fun f => nth k (unravel s f) 0)).
Qed.

Lemma select_blocks (X : Type) (md : list Z) (n : nat) (dat : list X) (i : nat) :
  map (fun f => block n f dat) (nonzero_from i md)
  = select md (chunks (length md) n (skipn (i * n) dat)).
Proof.
  revert i; induction md as [|v md IH]; intros i; simpl; [reflexivity|].
  rewrite skipn_skipn.
  replace (n + i * n) with (S i * n) by (simpl; lia).
  destruct (v =? 0)%Z; simpl; rewrite IH; reflexivity.
Qed.

(** Indexing with the non-zero positions of a mask that covers all
    axes but the last keeps the blocks of the last axis where the mask
    is non-zero. *)
Lemma index_tuple_nonzero (A : Type) (t : Tensor A) (m : Tensor Z) (d : nat) :
  shape m <> [] ->
  shape t = shape m ++ [d] ->
  wf m ->
  index_tuple t (nonzero_as_tuple m)
  = Ok (mkTensor [count_nonzero (data m); d]
          (concat (select (data m) (chunks (length (data m)) d (data t))))).
Proof.
  intros Hs Ht Hm. destruct m as [s md]. simpl in *.
  destruct (nonzero_coords md Hs) as (Hk & Hn & Hc).
  unfold index_tuple. rewrite Hk, Hn, Hc, Ht.
  rewrite length_app. simpl.
  replace (length s + 1 <? length s) with false
    by (symmetry; apply Nat.ltb_ge; lia).
  rewrite firstn_app, Nat.sub_diag, firstn_all. simpl. rewrite app_nil_r.
  rewrite skipn_app, Nat.sub_diag, skipn_all. simpl.
  replace (forallb (in_bounds s) (map (unravel s) (nonzero_flat md))) with true.
  2:{ symmetry. apply forallb_forall. intros c Hc'.
      apply in_map_iff in Hc'. destruct Hc' as [f [<- Hf]].
      apply in_bounds_unravel. apply nonzero_flat_bounds in Hf.
      unfold wf in Hm. simpl in Hm. lia. }
  rewrite Nat.mul_1_r. do 2 f_equal.
  rewrite map_map.
  pose proof (select_blocks md d (data t) 0) as E. simpl in E.
  rewrite <- E. unfold nonzero_flat. f_equal.
  apply map_ext_in. intros f Hf. rewrite ravel_unravel; [reflexivity|].
  apply nonzero_flat_bounds in Hf. unfold wf in Hm. simpl in Hm. lia.
Qed.

Lemma tensor_eta (A : Type) (t : Tensor A) : t = mkTensor (shape t) (data t).
Proof. destruct t; reflexivity. Qed.

(** ** The two halves of the split at [num_prefix_tokens] *)

Section Split.
Variable A : Type.
Variable t : Tensor A.
Variables (B L : nat) (F : list nat).
Hypothesis Hshape : shape t = B :: L :: F.

Local Abbreviation row := (Torch.row t L F).
Local Abbreviation prefix_row := (Torch.prefix_row t L F).
Local Abbreviation body_row := (Torch.body_row t L F).
Local Abbreviation prefix_part := (Torch.prefix_part t B L F).
Local Abbreviation body_part := (Torch.body_part t B L F).

Lemma slice_prefix (P : Z) :
  slice_dim1 None (Some P) t = Ok (prefix_part (slice_bound L 0 (Some P))).
Proof.
  unfold slice_dim1. rewrite Hshape. unfold prefix_part. do 3 f_equal.
  rewrite chunks_seq, map_map. reflexivity.
Qed.

Lemma slice_body (P : Z) :
  slice_dim1 (Some P) None t = Ok (body_part (slice_bound L 0 (Some P))).
Proof.
  unfold slice_dim1. rewrite Hshape. unfold body_part. do 3 f_equal.
  rewrite chunks_seq, map_map. reflexivity.
Qed.

Lemma slice_bound_le (P : Z) : slice_bound L 0 (Some P) <= L.
Proof. unfold slice_bound. destruct (P <? 0)%Z; lia. Qed.

Lemma slice_bound_nat (P : nat) :
  P <= L -> slice_bound L 0 (Some (Z.of_nat P)) = P.
Proof.
  intros H. unfold slice_bound.
  destruct (Z.of_nat P <? 0)%Z eqn:E; [apply Z.ltb_lt in E; lia|]. lia.
Qed.

Hypothesis Hwf : wf t.

Lemma row_length (r : nat) : r < B -> length (row r) = L * numel F.
Proof.
  intros Hr. apply block_length. unfold wf in Hwf. rewrite Hshape in Hwf.
  simpl in Hwf. rewrite Hwf. simpl. nia.
Qed.

Lemma body_row_length (p r : nat) :
  p <= L -> r < B -> length (body_row p r) = (L - p) * numel F.
Proof.
  intros Hp Hr. unfold body_row.
  rewrite length_firstn, length_skipn, row_length by exact Hr. nia.
Qed.

Lemma prefix_row_length (p r : nat) :
  p <= L -> r < B -> length (prefix_row p r) = p * numel F.
Proof.
  intros Hp Hr. unfold prefix_row.
  rewrite length_firstn, length_skipn, row_length by exact Hr. nia.
Qed.

(** Without a split ([num_prefix_tokens = 0]) the body is the whole
    buffer, which is the body of a split at [0]. *)
Lemma body_part_0 : body_part 0 = t.
Proof.
  transitivity (mkTensor (shape t) (data t)); [|symmetry; apply tensor_eta].
  unfold Torch.body_part. rewrite Hshape, Nat.sub_0_r. f_equal.
  assert (Hlen : length (data t) = B * (L * numel F))
    by (unfold wf in Hwf; now rewrite Hshape in Hwf).
  transitivity (concat (chunks B (L * numel F) (data t)));
    [|now apply concat_chunks].
  rewrite chunks_seq. f_equal. apply map_ext_seq. intros r Hr.
  unfold body_row. rewrite Nat.sub_0_r.
  change (skipn (0 * numel F) (row r)) with (row r).
  change (block (L * numel F) r (data t)) with (row r).
  apply firstn_all2. rewrite row_length; lia.
Qed.

(** [drop_tokens] as a pipeline over the two parts. *)
Lemma drop_tokens_unfold (m : Tensor Z) (P : Z) (o : bool) :
  let p := slice_bound L 0 (Some P) in
  drop_tokens t m P o =
  if list_eq_dec Nat.eq_dec (removelast (B :: (L - p) :: F)) (shape m)
  then
    x <- index_tuple (body_part p) (nonzero_as_tuple m) ;;
    y <- reshape x (Some B :: None :: map Some F) ;;
    if (P =? 0)%Z then Ok y else cat_dim1 (prefix_part p) y
  else Raise AssertionError.
Proof.
  intros p. unfold drop_tokens.
  destruct (P =? 0)%Z eqn:EP.
  - apply Z.eqb_eq in EP. subst P.
    assert (Hp : p = 0) by (subst p; unfold slice_bound; simpl; lia).
    rewrite Hp, body_part_0. cbn [bind fst snd].
    rewrite Hshape, Nat.sub_0_r.
    destruct (list_eq_dec Nat.eq_dec _ _); reflexivity.
  - rewrite slice_prefix, slice_body. cbn [bind fst snd]. fold p.
    unfold body_part at 1 2. cbn [shape].
    destruct (list_eq_dec Nat.eq_dec _ _); reflexivity.
Qed.
End Split.

(** ** Facts about [select] and [count_nonzero] *)

Lemma nonzero_from_length (l : list Z) (i j : nat) :
  length (nonzero_from i l) = length (nonzero_from j l).
Proof.
  revert i j; induction l as [|v l IH]; intros i j; simpl; [reflexivity|].
  destruct (v =? 0)%Z; simpl; auto.
Qed.

Lemma count_nonzero_cons (v : Z) (l : list Z) :
  count_nonzero (v :: l)
  = (if (v =? 0)%Z then 0 else 1) + count_nonzero l.
Proof.
  unfold count_nonzero, nonzero_flat. simpl.
  destruct (v =? 0)%Z; simpl; now rewrite (nonzero_from_length l 1 0).
Qed.

Lemma count_nonzero_app (a b : list Z) :
  count_nonzero (a ++ b) = count_nonzero a + count_nonzero b.
Proof.
  induction a as [|v a IH]; [reflexivity|].
  rewrite <- app_comm_cons, !count_nonzero_cons, IH. lia.
Qed.

Lemma count_nonzero_rows (T : Type) (f : T -> list Z) (k : nat) (rs : list T) :
  (forall r, In r rs -> count_nonzero (f r) = k) ->
  count_nonzero (concat (map f rs)) = length rs * k.
Proof.
  induction rs as [|a rs IH]; intros H; simpl; [reflexivity|].
  rewrite count_nonzero_app, IH by (intros; apply H; now right).
  rewrite (H a) by now left. reflexivity.
Qed.

Section SelectFacts.
Variable X : Type.
Implicit Types (m : list Z) (xs : list X).

Lemma select_length m xs :
  length xs = length m -> length (select m xs) = count_nonzero m.
Proof.
  revert xs; induction m as [|v m IH]; intros [|x xs] Hl;
    try discriminate; [reflexivity|].
  rewrite count_nonzero_cons. simpl in *.
  destruct (v =? 0)%Z; simpl; rewrite IH by lia; reflexivity.
Qed.

Lemma select_In m xs x : In x (select m xs) -> In x xs.
Proof.
  revert xs; induction m as [|v m IH]; intros [|y xs]; simpl; try tauto.
  destruct (v =? 0)%Z; simpl; intros H.
  - right. now apply IH.
  - destruct H as [->|H]; [now left|right; now apply IH].
Qed.

Lemma select_app m1 m2 xs1 xs2 :
  length xs1 = length m1 ->
  select (m1 ++ m2) (xs1 ++ xs2) = select m1 xs1 ++ select m2 xs2.
Proof.
  revert xs1; induction m1 as [|v m1 IH]; intros [|x xs1] Hl;
    try discriminate; [reflexivity|].
  simpl in *. destruct (v =? 0)%Z; simpl; rewrite IH by lia; reflexivity.
Qed.

(** [select] written with positions, as [xs[nonzero(m)]]. *)
Lemma select_nth_from m xs (d : X) (i : nat) :
  select m (skipn i xs)
  = map (fun j => nth j xs d) (nonzero_from i m) \/ length xs < i + length m.
Proof.
  revert i; induction m as [|v m IH]; intros i; simpl.
  - left. destruct (skipn i xs); reflexivity.
  - destruct (Nat.lt_ge_cases (length xs) (i + S (length m)));
      [now right|left].
    destruct (skipn i xs) as [|x rest] eqn:E.
    { apply (f_equal (@length X)) in E. rewrite length_skipn in E.
      simpl in E. lia. }
    assert (Hx : nth i xs d = x).
    { rewrite <- (firstn_skipn i xs), E, app_nth2;
        rewrite length_firstn; [|lia].
      replace (i - Nat.min i (length xs)) with 0 by lia. reflexivity. }
    assert (Hrest : rest = skipn (S i) xs).
    { change (S i) with (1 + i). rewrite <- skipn_skipn, E. reflexivity. }
    destruct (IH (S i)) as [IH'|]; [|lia].
    rewrite Hrest, IH'. destruct (v =? 0)%Z; simpl; [reflexivity|].
    now rewrite Hx.
Qed.

Lemma select_nth m xs (d : X) :
  length xs = length m ->
  select m xs = map (fun j => nth j xs d) (nonzero_flat m).
Proof.
  intros Hl. destruct (select_nth_from m xs d 0) as [H|H]; [exact H|lia].
Qed.

(** Row by row: selecting in a batch of aligned rows is selecting in
    each row. *)
Lemma select_rows (T : Type) (mrow : T -> list Z) (xrow : T -> list X)
      (rs : list T) :
  (forall r, In r rs -> length (xrow r) = length (mrow r)) ->
  select (concat (map mrow rs)) (concat (map xrow rs))
  = concat (map (fun r => select (mrow r) (xrow r)) rs).
Proof.
  induction rs as [|a rs IH]; intros H; simpl; [reflexivity|].
  rewrite select_app by (apply H; now left).
  rewrite IH by (intros; apply H; now right). reflexivity.
Qed.
End SelectFacts.

Lemma concat_concat_map (X T : Type) (f : T -> list (list X)) (rs : list T) :
  concat (concat (map f rs)) = concat (map (fun r => concat (f r)) rs).
Proof.
  induction rs as [|a rs IH]; simpl; [reflexivity|].
  now rewrite concat_app, IH.
Qed.

(** Blocks of a batch of rows: cut each row. *)
Lemma chunks_rows (X T : Type) (xrow : T -> list X) (w n : nat) (rs : list T) :
  (forall r, In r rs -> length (xrow r) = w * n) ->
  chunks (length rs * w) n (concat (map xrow rs))
  = concat (map (fun r => chunks w n (xrow r)) rs).
Proof.
  intros H.
  rewrite <- (map_map xrow (chunks w n)).
  assert (E : concat (map xrow rs)
              = concat (concat (map (chunks w n) (map xrow rs)))).
  { rewrite map_map, concat_concat_map. f_equal. apply map_ext_in.
    intros r Hr. symmetry. apply concat_chunks. now apply H. }
  rewrite E at 1.
  set (bs := concat (map (chunks w n) (map xrow rs))).
  assert (Hb : length bs = length rs * w).
  { subst bs. rewrite (concat_length_const (n:=w)).
    - now rewrite !length_map.
    - intros c Hc. apply in_map_iff in Hc. destruct Hc as [l [<- _]].
      apply chunks_length. }
  transitivity (chunks (length bs) n (concat (map (fun c => c) bs)));
    [now rewrite map_id, Hb|].
  rewrite chunks_concat_map; [apply map_id|].
  intros c Hc. subst bs. apply in_concat in Hc. destruct Hc as [cs [Hcs Hc]].
  apply in_map_iff in Hcs. destruct Hcs as [l [<- Hl]].
  apply in_map_iff in Hl. destruct Hl as [r [<- Hr]].
  eapply chunks_block_length; [|exact Hc]. rewrite H by exact Hr. lia.
Qed.

(** ** [reshape] and [cat] on the shapes that [drop_tokens] builds *)

Lemma given_size_some (F : list nat) : given_size (map Some F) = numel F.
Proof. induction F as [|d F IH]; simpl; [reflexivity|now rewrite IH]. Qed.

Lemma inferred_count_some (F : list nat) : inferred_count (map Some F) = 0.
Proof. unfold inferred_count. induction F as [|d F IH]; simpl; auto. Qed.

Lemma map_infer_some (F : list nat) (q : nat) :
  map (fun d : option nat => match d with Some n => n | None => q end)
      (map Some F) = F.
Proof. rewrite map_map. apply map_id. Qed.

Lemma reshape_rows (A : Type) (sh : list nat) (dat : list A) (B : nat)
      (F : list nat) :
  reshape (mkTensor sh dat) (Some B :: None :: map Some F)
  = if (numel sh =? B * numel F)
       || ((0 <? B * numel F) && (numel sh mod (B * numel F) =? 0))
    then if B * numel F =? 0 then Raise RuntimeError
         else Ok (mkTensor (B :: numel sh / (B * numel F) :: F) dat)
    else Raise RuntimeError.
Proof.
  unfold reshape.
  change (inferred_count (Some B :: None :: map Some F))
    with (S (inferred_count (map Some F))).
  change (given_size (Some B :: None :: map Some F))
    with (B * given_size (map Some F)).
  rewrite inferred_count_some, given_size_some. cbn [shape data map].
  now rewrite map_infer_some.
Qed.

Lemma reshape_rows_ok (A : Type) (sh : list nat) (dat : list A) (B q : nat)
      (F : list nat) :
  0 < B * numel F ->
  numel sh = q * (B * numel F) ->
  reshape (mkTensor sh dat) (Some B :: None :: map Some F)
  = Ok (mkTensor (B :: q :: F) dat).
Proof.
  intros Hpos Hq. rewrite reshape_rows, Hq.
  rewrite Nat.Div0.mod_mul, Nat.div_mul by lia.
  replace (0 <? B * numel F) with true by (symmetry; apply Nat.ltb_lt; lia).
  rewrite Nat.eqb_refl, orb_true_r.
  replace (B * numel F =? 0) with false by (symmetry; apply Nat.eqb_neq; lia).
  reflexivity.
Qed.

Lemma reshape_rows_fail (A : Type) (sh : list nat) (dat : list A) (B : nat)
      (F : list nat) :
  B * numel F = 0 \/ numel sh mod (B * numel F) <> 0 ->
  reshape (mkTensor sh dat) (Some B :: None :: map Some F)
  = Raise RuntimeError.
Proof.
  intros H. rewrite reshape_rows.
  destruct (B * numel F =? 0) eqn:E0.
  - now destruct (_ || _).
  - apply Nat.eqb_neq in E0. destruct H as [H|H]; [contradiction|].
    replace (numel sh mod (B * numel F) =? 0) with false
      by (symmetry; now apply Nat.eqb_neq).
    replace (numel sh =? B * numel F) with false; [now rewrite andb_false_r|].
    symmetry. apply Nat.eqb_neq. intros E. rewrite E in H.
    now rewrite Nat.Div0.mod_same in H.
Qed.

Lemma cat_rows (A : Type) (B la lb : nat) (F : list nat) (a b : list A) :
  cat_dim1 (mkTensor (B :: la :: F) a) (mkTensor (B :: lb :: F) b)
  = Ok (mkTensor (B :: (la + lb) :: F)
          (concat (map (fun rr => fst rr ++ snd rr)
                       (combine (chunks B (la * numel F) a)
                                (chunks B (lb * numel F) b))))).
Proof.
  unfold cat_dim1. cbn [shape data]. rewrite Nat.eqb_refl.
  destruct (list_eq_dec Nat.eq_dec F F); [reflexivity|contradiction].
Qed.

(** ** [drop_tokens] once the shape assertion holds *)

Section Selected.
Variable A : Type.
Variable t : Tensor A.
Variables (B L : nat) (F : list nat).
Hypothesis Hshape : shape t = B :: L :: F.
Hypothesis Hwf : wf t.
Variable m : Tensor Z.
Hypothesis Hm : wf m.
Variable P : Z.

Let p := slice_bound L 0 (Some P).
Let d := last (B :: (L - p) :: F) 0.
Let N := count_nonzero (data m).

Hypothesis Hlead : removelast (B :: (L - p) :: F) = shape m.

Local Abbreviation selected := (Torch.selected t B L F m P).

Lemma body_shape : B :: (L - p) :: F = shape m ++ [d].
Proof.
  rewrite <- Hlead. apply app_removelast_last. discriminate.
Qed.

Lemma mask_shape_nonempty : shape m <> [].
Proof.
  rewrite <- Hlead. cbn. destruct F; discriminate.
Qed.

Lemma drop_tokens_selected (o : bool) :
  drop_tokens t m P o =
  y <- reshape (mkTensor [N; d] selected) (Some B :: None :: map Some F) ;;
  if (P =? 0)%Z then Ok y else cat_dim1 (prefix_part t B L F p) y.
Proof.
  rewrite (drop_tokens_unfold Hshape Hwf). fold p.
  destruct (list_eq_dec Nat.eq_dec _ _) as [_|Hne]; [|contradiction].
  rewrite (@index_tuple_nonzero A (body_part t B L F p) m d
             mask_shape_nonempty body_shape Hm).
  reflexivity.
Qed.
End Selected.

(** ** Tokens with one feature axis: [[B, L, H]] against a mask [[B, L-P]] *)

Section ThreeD.
Variable A : Type.
Variable t : Tensor A.
Variables (B L H P : nat).
Hypothesis Hshape : shape t = [B; L; H].
Hypothesis Hwf : wf t.
Variable m : Tensor Z.
Hypothesis Hm : wf m.
Hypothesis Hmask : shape m = [B; L - P].
Hypothesis HP : P <= L.

Let N := count_nonzero (data m).
Let mrow (r : nat) : list Z := block (L - P) r (data m).
Let brow : nat -> list A := body_row t L [H] P.
Let prow : nat -> list A := prefix_row t L [H] P.
Let srow : nat -> list A := kept_row t L H P m.

Lemma mask_data_length : length (data m) = B * (L - P).
Proof. unfold wf in Hm. rewrite Hmask in Hm. simpl in Hm. lia. Qed.

Lemma mask_rows : data m = concat (map mrow (seq 0 B)).
Proof.
  rewrite <- (concat_chunks B (L - P) (data m)) at 1
    by apply mask_data_length.
  now rewrite chunks_seq.
Qed.

Lemma mrow_length r : r < B -> length (mrow r) = L - P.
Proof.
  intros Hr. apply block_length. rewrite mask_data_length. simpl. nia.
Qed.

Lemma brow_length r : r < B -> length (brow r) = (L - P) * H.
Proof.
  intros Hr. unfold brow.
  rewrite (body_row_length Hshape Hwf) by assumption.
  simpl. lia.
Qed.

Lemma prow_length r : r < B -> length (prow r) = P * H.
Proof.
  intros Hr. unfold prow.
  rewrite (prefix_row_length Hshape Hwf) by assumption.
  simpl. lia.
Qed.

Lemma brow_chunk_length r c :
  r < B -> In c (chunks (L - P) H (brow r)) -> length c = H.
Proof.
  intros Hr. apply chunks_block_length. rewrite brow_length; lia.
Qed.

Lemma srow_length r :
  r < B -> length (srow r) = count_nonzero (mrow r) * H.
Proof.
  intros Hr. unfold srow, kept_row. fold (mrow r) (brow r).
  rewrite (concat_length_const (n:=H)).
  - rewrite select_length; [reflexivity|].
    now rewrite chunks_length, mrow_length.
  - intros c Hc. apply select_In in Hc. now apply brow_chunk_length in Hc.
Qed.

Lemma slice_at_P : slice_bound L 0 (Some (Z.of_nat P)) = P.
Proof. now apply slice_bound_nat. Qed.

Lemma lead_ok :
  removelast (B :: (L - slice_bound L 0 (Some (Z.of_nat P))) :: [H])
  = shape m.
Proof. rewrite slice_at_P, Hmask. reflexivity. Qed.

(** What the indexing step keeps, row by row. *)
Lemma selected_rows :
  selected t B L [H] m (Z.of_nat P) = concat (map srow (seq 0 B)).
Proof.
  unfold selected. rewrite slice_at_P.
  change (last [B; L - P; H] 0) with H.
  unfold body_part. cbn [data].
  rewrite mask_data_length.
  replace (B * (L - P)) with (length (seq 0 B) * (L - P))
    by now rewrite length_seq.
  change (body_row t L [H] P) with brow.
  rewrite chunks_rows by
    (intros r Hr; apply in_seq in Hr; apply brow_length; lia).
  rewrite mask_rows at 1.
  rewrite select_rows by
    (intros r Hr; apply in_seq in Hr;
     rewrite chunks_length, mrow_length; lia).
  apply concat_concat_map.
Qed.

(** An empty batch or an empty feature axis makes the inferred
    reshape ambiguous. *)
Lemma drop_tokens_3d_degenerate (o : bool) :
  B = 0 \/ H = 0 ->
  drop_tokens t m (Z.of_nat P) o = Raise RuntimeError.
Proof.
  intros Hz.
  rewrite (drop_tokens_selected Hshape Hwf Hm (Z.of_nat P) lead_ok).
  rewrite reshape_rows_fail; [reflexivity|]. left.
  cbn [numel fold_right]. nia.
Qed.

Lemma body_positions r :
  r < B -> skipn P (positions t r) = chunks (L - P) H (brow r).
Proof.
  intros Hr. unfold positions. rewrite Hshape.
  change (block (L * numel [H]) r (data t)) with (row t L [H] r).
  replace L with (P + (L - P)) at 1 by lia.
  rewrite skipn_chunks. unfold brow, body_row.
  cbn [numel fold_right]. rewrite !Nat.mul_1_r.
  f_equal. symmetry. apply firstn_all2.
  rewrite length_skipn, (row_length Hshape Hwf) by exact Hr.
  cbn [numel fold_right]. nia.
Qed.

Hypothesis HB : 0 < B.
Hypothesis HH : 0 < H.

(** The reshape refuses a selection that does not divide into [B]
    rows. *)
Lemma drop_tokens_3d_fail (o : bool) :
  N mod B <> 0 ->
  drop_tokens t m (Z.of_nat P) o = Raise RuntimeError.
Proof.
  intros Hmod.
  rewrite (drop_tokens_selected Hshape Hwf Hm (Z.of_nat P) lead_ok).
  rewrite reshape_rows_fail; [reflexivity|]. right.
  rewrite slice_at_P. change (last [B; L - P; H] 0) with H.
  cbn [numel fold_right]. rewrite !Nat.mul_1_r.
  rewrite Nat.Div0.mul_mod_distr_r. fold N. nia.
Qed.

Local Abbreviation out_data := (Torch.out_data t B L H P m).

Lemma drop_tokens_3d_ok (o : bool) (q : nat) :
  N = q * B ->
  drop_tokens t m (Z.of_nat P) o
  = Ok (mkTensor [B; P + q; H] (out_data q)).
Proof.
  intros Hq.
  rewrite (drop_tokens_selected Hshape Hwf Hm (Z.of_nat P) lead_ok).
  rewrite reshape_rows_ok with (q:=q).
  - cbn [bind]. unfold out_data.
    destruct (Z.of_nat P =? 0)%Z eqn:EP.
    + apply Z.eqb_eq in EP. replace P with 0 by lia. reflexivity.
    + rewrite slice_at_P. unfold prefix_part. rewrite Nat.sub_0_r.
      apply cat_rows.
  - cbn [numel fold_right]. nia.
  - rewrite slice_at_P. change (last [B; L - P; H] 0) with H.
    cbn [numel fold_right]. fold N. rewrite Hq. nia.
Qed.

Section Keeps.
Variable k : nat.
Hypothesis Hkeep : keeps m k.

Lemma mrow_count r : r < B -> count_nonzero (mrow r) = k.
Proof.
  intros Hr. pose proof Hkeep as Hk. unfold keeps, mask_row in Hk.
  rewrite Hmask in Hk. now apply Hk.
Qed.

Lemma count_keeps : N = k * B.
Proof.
  unfold N. rewrite mask_rows.
  rewrite count_nonzero_rows with (k:=k).
  - rewrite length_seq. lia.
  - intros r Hr. apply in_seq in Hr. apply mrow_count. lia.
Qed.

Local Abbreviation compacted := (Torch.compacted t B L H P m).

Lemma out_data_rows : out_data k = compacted.
Proof.
  unfold Torch.out_data, Torch.compacted. rewrite selected_rows.
  change (prefix_row t L [H] P) with prow.
  change (kept_row t L H P m) with srow.
  destruct (Z.of_nat P =? 0)%Z eqn:EP.
  - f_equal. apply map_ext_seq. intros r Hr.
    assert (E : prow r = []).
    { apply length_zero_iff_nil. rewrite prow_length by lia.
      apply Z.eqb_eq in EP. nia. }
    now rewrite E.
  - cbn [numel fold_right]. rewrite !Nat.mul_1_r.
    rewrite !chunks_concat_seq.
    + f_equal. rewrite <- (map_map (fun r => (prow r, srow r))
                             (fun rr => fst rr ++ snd rr)).
      f_equal. clear. induction (seq 0 B) as [|a l IH]; simpl;
        [reflexivity|now rewrite IH].
    + intros r Hr. rewrite srow_length, mrow_count by lia. reflexivity.
    + intros r Hr. apply prow_length. lia.
Qed.

Lemma drop_tokens_3d_keeps (o : bool) :
  drop_tokens t m (Z.of_nat P) o = Ok (mkTensor [B; P + k; H] compacted).
Proof.
  rewrite (drop_tokens_3d_ok o k count_keeps). now rewrite out_data_rows.
Qed.

Lemma compacted_positions r :
  r < B ->
  skipn P (positions (mkTensor [B; P + k; H] compacted) r)
  = select (mrow r) (chunks (L - P) H (brow r)).
Proof.
  intros Hr. unfold positions. cbn [shape data numel fold_right].
  rewrite !Nat.mul_1_r. unfold Torch.compacted.
  change (prefix_row t L [H] P) with prow.
  change (kept_row t L H P m) with srow.
  rewrite block_concat_seq; [|
    intros r' Hr'; rewrite length_app, prow_length, srow_length,
      mrow_count by lia; lia | exact Hr].
  rewrite skipn_chunks, skipn_app, prow_length, Nat.sub_diag by exact Hr.
  rewrite skipn_all2 by (rewrite prow_length by exact Hr; lia).
  cbn [skipn app]. unfold srow, kept_row. fold (mrow r) (brow r).
  set (sel := select (mrow r) (chunks (L - P) H (brow r))).
  assert (Hk : length sel = k).
  { subst sel. rewrite select_length; [now apply mrow_count|].
    now rewrite chunks_length, mrow_length. }
  rewrite <- Hk. rewrite <- (map_id sel) at 2.
  rewrite chunks_concat_map; [apply map_id|].
  intros c Hc. subst sel. apply select_In in Hc.
  now apply brow_chunk_length in Hc.
Qed.

Lemma compacted_rows r :
  r < B ->
  skipn P (positions (mkTensor [B; P + k; H] compacted) r)
  = map (fun j => nth j (skipn P (positions t r)) [])
        (nonzero_flat (mask_row m r)).
Proof.
  intros Hr. rewrite compacted_positions, body_positions by exact Hr.
  unfold mask_row. rewrite Hmask. fold (mrow r).
  apply select_nth. now rewrite chunks_length, mrow_length.
Qed.
End Keeps.
End ThreeD.

(** ** The steps after the assertion never raise [AssertionError] *)

Lemma index_tuple_not_assert (A : Type) (t : Tensor A) (cols : list (list nat)) :
  index_tuple t cols <> Raise AssertionError.
Proof.
  unfold index_tuple.
  destruct (length (shape t) <? length cols); [discriminate|].
  destruct (forallb _ _); discriminate.
Qed.

Lemma reshape_not_assert (A : Type) (t : Tensor A) (target : list (option nat)) :
  reshape t target <> Raise AssertionError.
Proof.
  unfold reshape.
  destruct (inferred_count target) as [|[|n]]; try discriminate.
  - destruct (_ =? _); discriminate.
  - destruct (_ || _); [|discriminate].
    destruct (_ =? _); discriminate.
Qed.

Lemma cat_dim1_not_assert (A : Type) (a b : Tensor A) :
  cat_dim1 a b <> Raise AssertionError.
Proof.
  unfold cat_dim1.
  destruct (shape a) as [|? [|? ?]]; try discriminate.
  destruct (shape b) as [|? [|? ?]]; try discriminate.
  destruct (_ && _); discriminate.
Qed.

(** The call raises [AssertionError] exactly when the asserted shapes
    differ. *)
Lemma assertion_fails_iff (A : Type) (t : Tensor A) (m : Tensor Z)
    (B L : nat) (F : list nat) (P : Z) (o : bool) :
  shape t = B :: L :: F -> wf t ->
  drop_tokens t m P o = Raise AssertionError
  <-> removelast (B :: (L - slice_bound L 0 (Some P)) :: F) <> shape m.
Proof.
  intros Ht Hwt. rewrite (drop_tokens_unfold Ht Hwt).
  destruct (list_eq_dec Nat.eq_dec _ _) as [E|E]; [|tauto].
  split; [|contradiction]. intros Hr. exfalso.
  destruct (index_tuple _ _) as [x|e] eqn:E1; cbn [bind] in Hr.
  2:{ rewrite Hr in E1. exact (index_tuple_not_assert _ _ E1). }
  destruct (reshape _ _) as [y|e] eqn:E2; cbn [bind] in Hr.
  2:{ rewrite Hr in E2. exact (reshape_not_assert _ _ E2). }
  destruct (P =? 0)%Z; [discriminate|].
  exact (cat_dim1_not_assert _ _ Hr).
Qed.

(** ** All-true masks *)

Lemma select_all (X : Type) (m : list Z) (xs : list X) :
  Forall (fun v => v <> 0%Z) m -> length xs = length m -> select m xs = xs.
Proof.
  intros Hall. revert xs. induction Hall as [|v m Hv _ IH]; intros [|x xs] Hl;
    try discriminate; [reflexivity|].
  simpl. apply Z.eqb_neq in Hv. rewrite Hv. f_equal. apply IH.
  simpl in Hl. lia.
Qed.

Lemma count_nonzero_all (m : list Z) :
  Forall (fun v => v <> 0%Z) m -> count_nonzero m = length m.
Proof.
  intros Hall. induction Hall as [|v m Hv _ IH]; [reflexivity|].
  rewrite count_nonzero_cons, IH. apply Z.eqb_neq in Hv. now rewrite Hv.
Qed.

(** ** The positions [nonzero] lists *)

Lemma nonzero_from_spec (l : list Z) (i j : nat) :
  In j (nonzero_from i l) <->
  i <= j < i + length l /\ nth (j - i) l 0%Z <> 0%Z.
Proof.
  revert i; induction l as [|v l IH]; intros i; simpl.
  - split; [tauto|lia].
  - destruct (v =? 0)%Z eqn:Ev.
    + apply Z.eqb_eq in Ev. rewrite IH. split.
      * intros [Hb Hn]. split; [lia|].
        replace (j - i) with (S (j - S i)) by lia. exact Hn.
      * intros [Hb Hn]. destruct (j - i) as [|q] eqn:Eq; [contradiction|].
        split; [lia|]. now replace (j - S i) with q by lia.
    + apply Z.eqb_neq in Ev. simpl. rewrite IH. split.
      * intros [<-|[Hb Hn]].
        -- split; [lia|]. now rewrite Nat.sub_diag.
        -- split; [lia|]. now replace (j - i) with (S (j - S i)) by lia.
      * intros [Hb Hn]. destruct (j - i) as [|q] eqn:Eq.
        -- left. lia.
        -- right. split; [lia|]. now replace (j - S i) with q by lia.
Qed.

Lemma nonzero_flat_spec (l : list Z) (j : nat) :
  In j (nonzero_flat l) <-> j < length l /\ nth j l 0%Z <> 0%Z.
Proof.
  unfold nonzero_flat. rewrite nonzero_from_spec, Nat.sub_0_r. simpl.
  split; intros [? ?]; split; auto; lia.
Qed.

Lemma nonzero_from_sorted (l : list Z) (i : nat) :
  StronglySorted lt (nonzero_from i l).
Proof.
  revert i; induction l as [|v l IH]; intros i; simpl; [constructor|].
  destruct (v =? 0)%Z; [apply IH|].
  constructor; [apply IH|].
  apply Forall_forall. intros j Hj. apply nonzero_from_bounds in Hj. lia.
Qed.

Lemma nonzero_flat_sorted (l : list Z) : StronglySorted lt (nonzero_flat l).
Proof. apply nonzero_from_sorted. Qed.


(** * The masked compactor: properties of [drop_tokens] *)

Example drop_tokens_docstring :
  drop_tokens ex_tokens ex_mask 1 true
  = Ok (mkTensor [2; 3; 2]
          [16; 65;  72; 76;  69; 3;
           24; 33;  61; 89;  31; 49]).
Proof. reflexivity. Qed.

(** [keeps] on a concrete mask: one case per row. *)
Ltac keeps_by_rows :=
  let r := fresh "r" in
  let Hr := fresh "Hr" in
  intros r Hr; simpl in Hr; try lia;
  repeat (destruct r as [|r]; [reflexivity|try lia]).

Lemma keeps_ex_mask : keeps ex_mask 2.
Proof. keeps_by_rows. Qed.

(** C1, as stated, fails: with two feature axes and the
    two-dimensional mask [[B, L-P]] the shape assertion fails; with an
    empty feature axis, or an empty batch, the inferred reshape is
    refused. Each input satisfies the equal-keep-count invariant. *)
Lemma drop_tokens_shape_counterexample :
  (let t := mkTensor [1; 1; 1; 1] [7] in
   let m := mkTensor [1; 1 - 0] [1%Z] in
   wf t /\ wf m /\ keeps m 1 /\
   drop_tokens t m 0 true = Raise AssertionError)
  /\
  (let t := mkTensor [2; 3; 0] (@nil nat) in
   let m := mkTensor [2; 3 - 1] [1; 0; 0; 1]%Z in
   wf t /\ wf m /\ keeps m 1 /\
   drop_tokens t m 1 true = Raise RuntimeError)
  /\
  (let t := mkTensor [0; 2; 3] (@nil nat) in
   let m := mkTensor [0; 2 - 1] (@nil Z) in
   wf t /\ wf m /\ keeps m 0 /\
   drop_tokens t m 1 true = Raise RuntimeError).
Proof.
  repeat split; try reflexivity; keeps_by_rows.
Qed.

(** C1, amended: for tokens of shape [[B, L, H]] with exactly one
    feature axis, [B >= 1] and [H >= 1], and a mask of shape
    [[B, L-P]] in which every row keeps [k] entries, [drop_tokens]
    returns a buffer of shape exactly [[B, P+k, H]]. *)
Theorem drop_tokens_output_shape (A : Type) (t : Tensor A) (m : Tensor Z)
    (B L H P k : nat) (o : bool) :
  shape t = [B; L; H] -> wf t ->
  shape m = [B; L - P] -> wf m ->
  P <= L -> 0 < B -> 0 < H ->
  keeps m k ->
  exists out,
    drop_tokens t m (Z.of_nat P) o = Ok out /\ shape out = [B; P + k; H].
Proof.
  intros Ht Hwt Hm Hwm HP HB HH Hk.
  eexists. split.
  - exact (drop_tokens_3d_keeps Ht Hwt Hwm Hm HP HB HH Hk o).
  - reflexivity.
Qed.

Lemma drop_tokens_output_shape_witness :
  exists out,
    drop_tokens ex_tokens ex_mask (Z.of_nat 1) true = Ok out
    /\ shape out = [2; 1 + 2; 2].
Proof.
  apply (@drop_tokens_output_shape nat ex_tokens ex_mask 2 5 2 1 2 true);
    try reflexivity; try lia.
  keeps_by_rows.
Defined.

(** C2, as stated, fails in both directions when the tokens have two
    feature axes: the body's leading shape [[B, L-P]] equals the mask's
    shape and the assertion fails; it differs from the mask's shape and
    the assertion passes. *)
Lemma drop_tokens_assertion_counterexample :
  (let t := mkTensor [1; 2; 1; 1] [7; 8] in
   let m := mkTensor [1; 2] [1; 1]%Z in
   wf t /\ wf m /\ [1; 2 - 0] = shape m /\
   drop_tokens t m 0 true = Raise AssertionError)
  /\
  (let t := mkTensor [1; 2; 1; 1] [7; 8] in
   let m := mkTensor [1; 2; 1] [1; 1]%Z in
   wf t /\ wf m /\ [1; 2 - 0] <> shape m /\
   drop_tokens t m 0 true = Ok t).
Proof.
  repeat split; try reflexivity. discriminate.
Qed.

(** C2, amended: the one validated precondition is
    [body.shape[:-1] == mask.shape], all axes of the non-prefix body
    but the last against the mask's shape; the call fails with
    [AssertionError] exactly when these differ. For tokens with one
    feature axis, [[B, L, H]], the compared shape is [[B, L-P]]. *)
Theorem drop_tokens_assertion (A : Type) (t : Tensor A) (m : Tensor Z)
    (B L : nat) (F : list nat) (P : Z) (o : bool) :
  shape t = B :: L :: F -> wf t ->
  let p := slice_bound L 0 (Some P) in
  (drop_tokens t m P o = Raise AssertionError
   <-> removelast (B :: (L - p) :: F) <> shape m)
  /\ (forall H, F = [H] ->
      (drop_tokens t m P o = Raise AssertionError <-> [B; L - p] <> shape m)).
Proof.
  intros Ht Hwt p.
  pose proof (assertion_fails_iff m P o Ht Hwt) as Hiff.
  split; [exact Hiff|]. intros H ->. exact Hiff.
Qed.

Lemma drop_tokens_assertion_witness :
  let p := slice_bound 5 0 (Some 1%Z) in
  (drop_tokens ex_tokens ex_mask 1 true = Raise AssertionError
   <-> removelast (2 :: (5 - p) :: [2]) <> shape ex_mask)
  /\ (forall H, [2] = [H] ->
      (drop_tokens ex_tokens ex_mask 1 true = Raise AssertionError
       <-> [2; 5 - p] <> shape ex_mask)).
Proof.
  apply (@drop_tokens_assertion nat ex_tokens ex_mask 2 5 [2] 1%Z true);
    reflexivity.
Defined.

(** Rows keeping 2 and 1 entries: three selected entries do not divide
    into two rows, and the reshape fails. *)
Example reshape_refuses_2_and_1 :
  drop_tokens (mkTensor [2; 3; 1] [1; 2; 3; 4; 5; 6])
              (mkTensor [2; 3] [1; 1; 0; 1; 0; 0]%Z) 0 true
  = Raise RuntimeError.
Proof. reflexivity. Qed.




(** C9: the [ordered] flag is inert; the result does not depend on
    it. *)
Theorem drop_tokens_ordered_inert (A : Type) (t : Tensor A) (m : Tensor Z)
    (P : Z) :
  drop_tokens t m P true = drop_tokens t m P false.
Proof. reflexivity. Qed.

(** What the shape assertion forces on tokens checked against a
    two-dimensional mask: exactly one feature axis. *)
Lemma one_feature_axis (B M : nat) (F : list nat) :
  removelast (B :: M :: F) = [B; M] -> exists H, F = [H].
Proof.
  destruct F as [|H [|H' F']]; cbn.
  - discriminate.
  - intros _. now exists H.
  - destruct F'; discriminate.
Qed.

(** C3: for tokens [[B, L, ...]] and a mask [[B, L-P]] with equal keep
    counts, row [r] of the output of [drop_tokens] after its [P] prefix
    entries is the body of row [r] of the tokens read at the non-zero
    positions of mask row [r], which [nonzero] lists in ascending
    order; and the call does return an output when the tokens have one
    non-empty feature axis and the batch is not empty. *)
Theorem drop_tokens_rows (A : Type) (t : Tensor A) (m : Tensor Z)
    (B L P k : nat) (F : list nat) (o : bool) :
  shape t = B :: L :: F -> wf t ->
  shape m = [B; L - P] -> wf m ->
  P <= L ->
  keeps m k ->
  (forall H, F = [H] -> 0 < B -> 0 < H ->
     exists out, drop_tokens t m (Z.of_nat P) o = Ok out)
  /\
  (forall out, drop_tokens t m (Z.of_nat P) o = Ok out ->
   forall r, r < B ->
     skipn P (positions out r)
     = map (fun j => nth j (skipn P (positions t r)) [])
           (nonzero_flat (mask_row m r))
     /\ StronglySorted lt (nonzero_flat (mask_row m r))
     /\ (forall j, In j (nonzero_flat (mask_row m r))
                   <-> j < length (mask_row m r)
                       /\ nth j (mask_row m r) 0%Z <> 0%Z)).
Proof.
  intros Ht Hwt Hm Hwm HP Hk. split.
  { intros H -> HB HH. eexists.
    exact (drop_tokens_3d_keeps Ht Hwt Hwm Hm HP HB HH Hk o). }
  intros out Hout r Hr.
  split; [|split; [apply nonzero_flat_sorted|apply nonzero_flat_spec]].
  assert (HF : exists H, F = [H]).
  { apply (@one_feature_axis B (L - P)).
    pose proof (assertion_fails_iff m (Z.of_nat P) o Ht Hwt) as Ha.
    rewrite (slice_bound_nat HP) in Ha.
    destruct (list_eq_dec Nat.eq_dec (removelast (B :: (L - P) :: F)) (shape m))
      as [E|E]; [now rewrite E, Hm|].
    apply Ha in E. rewrite E in Hout. discriminate. }
  destruct HF as [H ->].
  destruct (Nat.eq_dec H 0) as [H0|H0].
  { rewrite (drop_tokens_3d_degenerate Ht Hwt Hwm Hm HP o) in Hout
      by (right; exact H0).
    discriminate. }
  assert (HB : 0 < B) by lia. assert (HH : 0 < H) by lia.
  rewrite (drop_tokens_3d_keeps Ht Hwt Hwm Hm HP HB HH Hk o) in Hout.
  injection Hout as <-.
  exact (compacted_rows Ht Hwt Hwm Hm HP HB HH Hk Hr).
Qed.

Lemma drop_tokens_rows_witness :
  (forall H, [2] = [H] -> 0 < 2 -> 0 < H ->
     exists out, drop_tokens ex_tokens ex_mask (Z.of_nat 1) true = Ok out)
  /\
  (forall out, drop_tokens ex_tokens ex_mask (Z.of_nat 1) true = Ok out ->
   forall r, r < 2 ->
     skipn 1 (positions out r)
     = map (fun j => nth j (skipn 1 (positions ex_tokens r)) [])
           (nonzero_flat (mask_row ex_mask r))
     /\ StronglySorted lt (nonzero_flat (mask_row ex_mask r))
     /\ (forall j, In j (nonzero_flat (mask_row ex_mask r))
                   <-> j < length (mask_row ex_mask r)
                       /\ nth j (mask_row ex_mask r) 0%Z <> 0%Z)).
Proof.
  apply (@drop_tokens_rows nat ex_tokens ex_mask 2 5 1 2 [2] true);
    try reflexivity; try lia.
  keeps_by_rows.
Defined.

(** The rows of the docstring's output, read off as C3 states them. *)
Example drop_tokens_docstring_rows :
  let out := mkTensor [2; 3; 2]
               [16; 65;  72; 76;  69; 3;  24; 33;  61; 89;  31; 49] in
  skipn 1 (positions out 0) = [[72; 76]; [69; 3]]
  /\ map (fun j => nth j (skipn 1 (positions ex_tokens 0)) [])
         (nonzero_flat (mask_row ex_mask 0)) = [[72; 76]; [69; 3]]
  /\ skipn 1 (positions out 1) = [[61; 89]; [31; 49]]
  /\ map (fun j => nth j (skipn 1 (positions ex_tokens 1)) [])
         (nonzero_flat (mask_row ex_mask 1)) = [[61; 89]; [31; 49]].
Proof. repeat split. Qed.

Lemma numel_pos (F : list nat) : ~ In 0 F -> 0 < numel F.
Proof.
  induction F as [|d F IH]; simpl; intros H; [lia|].
  assert (0 < d) by (destruct d; [exfalso; apply H; now left|lia]).
  assert (0 < numel F) by (apply IH; intros Hin; apply H; now right).
  nia.
Qed.

(** C8, as stated, fails on a buffer with an empty batch, and on one
    with an empty feature axis: the all-true mask selects everything,
    and the inferred reshape is refused. *)
Lemma drop_tokens_all_true_counterexample :
  (let t := mkTensor [0; 1; 1] (@nil nat) in
   let m := mkTensor [0; 1] (@nil Z) in
   wf t /\ wf m /\ shape m = removelast (shape t) /\
   Forall (fun v => v <> 0%Z) (data m) /\
   drop_tokens t m 0 true = Raise RuntimeError)
  /\
  (let t := mkTensor [1; 1; 0] (@nil nat) in
   let m := mkTensor [1; 1] [1%Z] in
   wf t /\ wf m /\ shape m = removelast (shape t) /\
   Forall (fun v => v <> 0%Z) (data m) /\
   drop_tokens t m 0 true = Raise RuntimeError).
Proof.
  repeat split; try reflexivity; repeat constructor; discriminate.
Qed.

(** C8, amended: for every tokens buffer with at least one batch row
    and no empty feature axis, [drop_tokens] with
    [num_prefix_tokens = 0] and an all-true mask of the shape the
    assertion asks for returns the input, unchanged. *)
Theorem drop_tokens_all_true (A : Type) (t : Tensor A) (m : Tensor Z)
    (B L : nat) (F : list nat) (o : bool) :
  shape t = B :: L :: F -> wf t ->
  shape m = removelast (shape t) -> wf m ->
  Forall (fun v => v <> 0%Z) (data m) ->
  0 < B -> ~ In 0 F ->
  drop_tokens t m 0 o = Ok t.
Proof.
  intros Ht Hwt Hm Hwm Hall HB HF.
  pose proof (@numel_pos F HF) as HnF.
  assert (Hp : slice_bound L 0 (Some 0%Z) = 0) by (apply (slice_bound_nat (P:=0)); lia).
  assert (Hlead : removelast (B :: (L - slice_bound L 0 (Some 0%Z)) :: F)
                  = shape m)
    by (now rewrite Hp, Nat.sub_0_r, Hm, Ht).
  rewrite (drop_tokens_selected Ht Hwt Hwm 0%Z Hlead o).
  pose proof (@body_shape B L F m 0%Z Hlead) as Hb.
  rewrite Hp, Nat.sub_0_r in Hb.
  unfold selected. rewrite Hp, (body_part_0 Ht Hwt), Nat.sub_0_r.
  set (d := last (B :: L :: F) 0) in *.
  assert (Hnum : numel (shape m) * d = B * (L * numel F)).
  { change (B * (L * numel F)) with (numel (B :: L :: F)).
    rewrite Hb, numel_app. simpl. lia. }
  assert (Hlen : length (data t) = length (data m) * d).
  { unfold wf in Hwt, Hwm. rewrite Hwt, Hwm, Ht. simpl. lia. }
  rewrite select_all by (auto using chunks_length).
  rewrite (concat_chunks _ _ _ Hlen), (count_nonzero_all Hall).
  rewrite reshape_rows_ok with (q:=L).
  - cbn [bind Z.eqb]. rewrite <- Ht. now rewrite <- tensor_eta.
  - nia.
  - cbn [numel fold_right]. unfold wf in Hwm. rewrite Hwm. nia.
Qed.

Lemma drop_tokens_all_true_witness :
  drop_tokens ex_tokens (mkTensor [2; 5] [1; 1; 1; 1; 1; 1; 1; 1; 1; 1]%Z)
              0 true
  = Ok ex_tokens.
Proof.
  apply (@drop_tokens_all_true nat ex_tokens
           (mkTensor [2; 5] [1; 1; 1; 1; 1; 1; 1; 1; 1; 1]%Z) 2 5 [2] true);
    try reflexivity; try lia.
  - repeat constructor; discriminate.
  - simpl. intros [E|[]]. discriminate.
Defined.

Import Introspect.

(** * Facts about the traversal *)

(** ** Induction over nested structures *)

Section PyTreeInduction.
Variable X : Type.
Variable P : PyTree X -> Prop.
Hypothesis HLeaf : forall x, P (Leaf x).
Hypothesis HNone : P NoneNode.
Hypothesis HList : forall xs, Forall P xs -> P (ListNode xs).
Hypothesis HTuple : forall xs, Forall P xs -> P (TupleNode xs).
Hypothesis HDict :
  forall kvs, Forall (fun kv => P (snd kv)) kvs -> P (DictNode kvs).

Fixpoint PyTree_nested_ind (t : PyTree X) : P t :=
  match t with
  | Leaf x => HLeaf x
  | NoneNode => HNone
  | ListNode xs =>
      HList ((fix go (l : list (PyTree X)) : Forall P l :=
                match l with
                | [] => Forall_nil _
                | t' :: r => Forall_cons _ (PyTree_nested_ind t') (go r)
                end) xs)
  | TupleNode xs =>
      HTuple ((fix go (l : list (PyTree X)) : Forall P l :=
                 match l with
                 | [] => Forall_nil _
                 | t' :: r => Forall_cons _ (PyTree_nested_ind t') (go r)
                 end) xs)
  | DictNode kvs =>
      HDict ((fix go (l : list (string * PyTree X))
                : Forall (fun kv => P (snd kv)) l :=
                match l with
                | [] => Forall_nil _
                | kv :: r =>
                    Forall_cons kv (PyTree_nested_ind (snd kv)) (go r)
                end) kvs)
  end.
End PyTreeInduction.

(** ** The running total *)

Lemma torch_memory_tensor_mb (x : PyObj) :
  has_size x = true ->
  exists size, torch_memory_tensor x 2 = Ok size /\ (size == leaf_size_mb x)%Q.
Proof.
  unfold has_size, torch_memory_tensor, leaf_size_mb.
  destruct (py_element_size x) as [e|]; [|discriminate].
  destruct (py_nelement x) as [n|]; [|discriminate].
  intros _. eexists. split; [reflexivity|].
  unfold Qeq, Qdiv, Qmult, Qinv, inject_Z. simpl. lia.
Qed.

Lemma leaf_size_mb_no_size (x : PyObj) :
  has_size x = false -> leaf_size_mb x = 0%Q.
Proof.
  unfold has_size, leaf_size_mb.
  destruct (py_element_size x); [|reflexivity].
  destruct (py_nelement x); [discriminate|reflexivity].
Qed.

(** [h_shape_get] never raises, and adds to the total the size of a
    leaf with both size capabilities when sizes are asked for. *)
Lemma h_shape_get_total (size_p type_only_p : bool) (x : PyObj) (s : Q) :
  exists d s',
    h_shape_get size_p type_only_p x s = Ok (d, s')
    /\ (s' == s + counted size_p x)%Q.
Proof.
  unfold h_shape_get, counted.
  destruct size_p; cbn [andb].
  - destruct (has_size x) eqn:Hs.
    + destruct (torch_memory_tensor_mb x Hs) as (size & -> & Hsize).
      cbn [bind fst snd].
      destruct (length _ =? 0)%nat; do 2 eexists;
        (split; [reflexivity|now rewrite Hsize]).
    + cbn [bind fst snd]. rewrite (leaf_size_mb_no_size x Hs).
      destruct (length _ =? 0)%nat; do 2 eexists;
        (split; [reflexivity|ring]).
  - cbn [bind fst snd].
    destruct (length _ =? 0)%nat; do 2 eexists; (split; [reflexivity|ring]).
Qed.

Lemma sum_counted_app (size_p : bool) (a b : list PyObj) :
  (sum_counted size_p (a ++ b)
   == sum_counted size_p a + sum_counted size_p b)%Q.
Proof.
  induction a as [|x a IH]; simpl; [ring|]. rewrite IH. ring.
Qed.


(** A stateful map over a list whose steps all succeed: the states
    add up and the results are related item by item. *)
Lemma list_map_st_total (T U : Type) (g : T -> Q -> Result (U * Q))
      (w : T -> Q) (R : T -> U -> Prop) (xs : list T) :
  Forall (fun t => forall s, exists u s',
              g t s = Ok (u, s') /\ (s' == s + w t)%Q /\ R t u) xs ->
  forall s, exists us s',
    list_map_st g xs s = Ok (us, s')
    /\ (s' == s + fold_right (fun t acc => w t + acc) 0 xs)%Q
    /\ Forall2 R xs us.
Proof.
  induction 1 as [|t xs Ht _ IH]; intros s; simpl.
  - exists [], s. repeat split; [ring|constructor].
  - destruct (Ht s) as (u & s1 & -> & Hs1 & Hr). cbn [bind fst snd].
    destruct (IH s1) as (us & s2 & -> & Hs2 & Hrs). cbn [bind fst snd].
    exists (u :: us), s2. repeat split.
    + rewrite Hs2, Hs1. ring.
    + now constructor.
Qed.

Lemma Forall2_map_eq (T U V : Type) (f : T -> V) (g : U -> V)
      (xs : list T) (us : list U) :
  Forall2 (fun t u => g u = f t) xs us -> map g us = map f xs.
Proof. induction 1; simpl; congruence. Qed.

Lemma sum_counted_flat_map (T : Type) (size_p : bool) (f : T -> list PyObj)
      (xs : list T) :
  (fold_right (fun t acc => sum_counted size_p (f t) + acc) 0 xs
   == sum_counted size_p (flat_map f xs))%Q.
Proof.
  induction xs as [|t xs IH]; simpl; [reflexivity|].
  rewrite sum_counted_app, IH. reflexivity.
Qed.

(** The traversal never raises; it returns a tree of the same
    skeleton and the total of the counted leaf sizes. *)
Lemma tree_map_total (size_p type_only_p : bool) (t : PyTree PyObj) :
  forall s, exists tree s',
    tree_map (h_shape_get size_p type_only_p) t s = Ok (tree, s')
    /\ (s' == s + sum_counted size_p (leaves t))%Q
    /\ skeleton tree = skeleton t.
Proof.
  induction t as [x| |xs IH|xs IH|kvs IH] using PyTree_nested_ind;
    intros s; cbn [tree_map].
  - destruct (h_shape_get_total size_p type_only_p x s) as (d & s' & -> & Hs).
    cbn [bind fst snd]. do 2 eexists. repeat split.
    simpl. rewrite Hs. ring.
  - do 2 eexists. repeat split. simpl. ring.
  - destruct (@list_map_st_total _ _ _
                (fun t => sum_counted size_p (leaves t))
                (fun t u => skeleton u = skeleton t) xs IH s)
      as (us & s' & -> & Hs & Hr).
    cbn [bind fst snd]. do 2 eexists. repeat split.
    + cbn [leaves]. now rewrite Hs, sum_counted_flat_map.
    + cbn [skeleton]. f_equal. now apply Forall2_map_eq.
  - destruct (@list_map_st_total _ _ _
                (fun t => sum_counted size_p (leaves t))
                (fun t u => skeleton u = skeleton t) xs IH s)
      as (us & s' & -> & Hs & Hr).
    cbn [bind fst snd]. do 2 eexists. repeat split.
    + cbn [leaves]. now rewrite Hs, sum_counted_flat_map.
    + cbn [skeleton]. f_equal. now apply Forall2_map_eq.
  - assert (IH' : Forall (fun kv : string * PyTree PyObj =>
               forall s, exists (u : string * PyTree Desc) s',
                 (r <- tree_map (h_shape_get size_p type_only_p) (snd kv) s ;;
                  Ok ((fst kv, fst r), snd r)) = Ok (u, s')
                 /\ (s' == s + sum_counted size_p (leaves (snd kv)))%Q
                 /\ (fst u, skeleton (snd u))
                    = (fst kv, skeleton (snd kv))) kvs).
    { eapply Forall_impl; [|exact IH]. intros kv Hkv s0.
      destruct (Hkv s0) as (tree & s' & -> & Hs & Hsk).
      cbn [bind fst snd]. do 2 eexists. repeat split; [exact Hs|].
      cbn [fst snd]. now rewrite Hsk. }
    destruct (@list_map_st_total _ _ _ _ _ kvs IH' s)
      as (us & s' & E & Hs & Hr).
    rewrite E. cbn [bind fst snd]. do 2 eexists. repeat split.
    + cbn [leaves].
      now rewrite Hs, (sum_counted_flat_map size_p (fun kv => leaves (snd kv))).
    + cbn [skeleton]. f_equal.
      now apply (Forall2_map_eq (fun kv => (fst kv, skeleton (snd kv)))
                   (fun kv => (fst kv, skeleton (snd kv)))).
Qed.


(** The call on any structure: it returns, with the tree and the
    total of the traversal started at [0]. *)
Lemma torch_shape_get_returns (input : PyTree PyObj)
      (size_p type_only_p : bool) :
  exists tree total,
    torch_shape_get input size_p type_only_p
    = Ok (if size_p then WithTotal total tree else TreeOnly tree)
    /\ (total == sum_counted size_p (leaves input))%Q
    /\ skeleton tree = skeleton input.
Proof.
  unfold torch_shape_get.
  destruct (tree_map_total size_p type_only_p input 0)
    as (tree & total & -> & Ht & Hsk).
  cbn [bind fst snd]. exists tree, total. repeat split.
  - now destruct size_p.
  - rewrite Ht. ring.
  - exact Hsk.
Qed.

(** The descriptor items that do not depend on [size_p]. *)
Lemma h_shape_get_no_size (size_p type_only_p : bool) (x : PyObj) (total : Q) :
  size_p && has_size x = false ->
  h_shape_get size_p type_only_p x total
  = h_shape_get false type_only_p x total.
Proof. unfold h_shape_get. intros ->. reflexivity. Qed.

Example torch_shape_get_example :
  torch_shape_get
    (DictNode [("a"%string, Leaf tensor_obj);
               ("b"%string, ListNode [Leaf shaped_obj; Leaf int_obj; NoneNode])])
    true false
  = Ok (WithTotal (24 # 1048576)
          (DictNode
             [("a"%string, Leaf (DTuple [IDtype "torch.float32"; IShape [2; 3];
                                  IStr "0.00MB"]));
              ("b"%string, ListNode [Leaf (DTuple [IType "Grid"; IShape [4]]);
                              Leaf (DObj int_obj); NoneNode])])).
Proof. reflexivity. Qed.


Import Introspect.

(** * The structural introspector: properties of [torch_shape_get] *)


(** C6: a leaf with a shape is described by a tuple that starts with
    its dtype and shape when it has a dtype, and with its type and
    shape when it has none; the tuple is exactly that pair unless a size
    string is appended ([size_p] set and both size capabilities
    present). *)
Theorem h_shape_get_precedence (size_p type_only_p : bool) (x : PyObj)
    (shape : list nat) (total : Q) :
  py_shape x = Some shape ->
  (forall dtype, py_dtype x = Some dtype ->
     exists tail total',
       h_shape_get size_p type_only_p x total
       = Ok (DTuple (IDtype dtype :: IShape shape :: tail), total')
       /\ (size_p && has_size x = false -> tail = [] /\ total' = total))
  /\ (py_dtype x = None ->
      exists tail total',
        h_shape_get size_p type_only_p x total
        = Ok (DTuple (IType (py_type x) :: IShape shape :: tail), total')
        /\ (size_p && has_size x = false -> tail = [] /\ total' = total)).
Proof.
  intros Hshape. split; [intros dtype Hd|intros Hd];
    unfold h_shape_get; rewrite Hd, Hshape;
    destruct (size_p && has_size x) eqn:Hs.
  - destruct (torch_memory_tensor_mb x) as (size & -> & _);
      [now apply andb_true_iff in Hs|].
    cbn [bind fst snd app length Nat.eqb]. do 2 eexists.
    split; [reflexivity|discriminate].
  - cbn [bind fst snd app length Nat.eqb]. exists [], total. now split.
  - destruct (torch_memory_tensor_mb x) as (size & -> & _);
      [now apply andb_true_iff in Hs|].
    cbn [bind fst snd app length Nat.eqb]. do 2 eexists.
    split; [reflexivity|discriminate].
  - cbn [bind fst snd app length Nat.eqb]. exists [], total. now split.
Qed.

Lemma h_shape_get_precedence_witness :
  (forall dtype, py_dtype tensor_obj = Some dtype ->
     exists tail total',
       h_shape_get true false tensor_obj 0
       = Ok (DTuple (IDtype dtype :: IShape [2; 3] :: tail), total')
       /\ (true && has_size tensor_obj = false -> tail = [] /\ total' = 0%Q))
  /\ (py_dtype tensor_obj = None ->
      exists tail total',
        h_shape_get true false tensor_obj 0
        = Ok (DTuple (IType (py_type tensor_obj) :: IShape [2; 3] :: tail),
              total')
        /\ (true && has_size tensor_obj = false -> tail = [] /\ total' = 0%Q)).
Proof.
  apply (@h_shape_get_precedence true false tensor_obj [2; 3] 0%Q).
  reflexivity.
Defined.



(** C10: a leaf with a dtype and no shape is described by the
    one-element tuple of its dtype, when no size string is appended. *)
Theorem h_shape_get_dtype_only (size_p type_only_p : bool) (x : PyObj)
    (dtype : string) (total : Q) :
  py_dtype x = Some dtype -> py_shape x = None ->
  has_size x = false \/ size_p = false ->
  h_shape_get size_p type_only_p x total = Ok (DTuple [IDtype dtype], total).
Proof.
  intros Hd Hs Hz.
  rewrite h_shape_get_no_size
    by (destruct Hz as [-> | ->]; [apply andb_false_r|reflexivity]).
  unfold h_shape_get. rewrite Hd, Hs. reflexivity.
Qed.

Lemma h_shape_get_dtype_only_witness :
  h_shape_get true false dtype_obj 0
  = Ok (DTuple [IDtype "float32"], 0%Q).
Proof.
  apply (@h_shape_get_dtype_only true false dtype_obj "float32" 0%Q);
    try reflexivity.
  left. reflexivity.
Defined.


(** * Further properties of [drop_tokens] *)

Lemma nonzero_from_zero_pattern (l l' : list Z) (i : nat) :
  map (fun v => (v =? 0)%Z) l = map (fun v => (v =? 0)%Z) l' ->
  nonzero_from i l = nonzero_from i l'.
Proof.
  revert l' i; induction l as [|v l IH]; intros [|v' l'] i E;
    try discriminate; [reflexivity|].
  simpl in E. injection E as Ev El. simpl. rewrite Ev.
  now rewrite (IH l' (S i) El).
Qed.

(** X1: a mask entry keeps its position when it is non-zero, whatever
    its value: two masks of the same shape with zeros at the same
    places give the same result, also when the call raises. *)
Theorem drop_tokens_mask_zero_pattern (A : Type) (t : Tensor A)
    (m m' : Tensor Z) (P : Z) (o : bool) :
  shape m = shape m' ->
  map (fun v => (v =? 0)%Z) (data m) = map (fun v => (v =? 0)%Z) (data m') ->
  drop_tokens t m P o = drop_tokens t m' P o.
Proof.
  intros Hs Hd.
  assert (E : nonzero_as_tuple m = nonzero_as_tuple m').
  { unfold nonzero_as_tuple, nonzero_flat.
    now rewrite Hs, (nonzero_from_zero_pattern _ _ 0 Hd). }
  unfold drop_tokens. now rewrite Hs, E.
Qed.

Lemma drop_tokens_mask_zero_pattern_witness :
  drop_tokens ex_tokens ex_mask 1 true
  = drop_tokens ex_tokens (mkTensor [2; 4] [7; 0; 0; -3; 0; 2; 1; 0]%Z) 1 true.
Proof.
  apply (@drop_tokens_mask_zero_pattern nat ex_tokens ex_mask
           (mkTensor [2; 4] [7; 0; 0; -3; 0; 2; 1; 0]%Z) 1%Z true);
    reflexivity.
Defined.

(** X2: [num_prefix_tokens] is read as a Python slice bound: a value
    beyond the [L] positions splits like [L], and a negative value
    [-j] splits like [L - j]. *)
Theorem drop_tokens_prefix_bound (A : Type) (t : Tensor A) (m : Tensor Z)
    (B L : nat) (F : list nat) (o : bool) :
  shape t = B :: L :: F -> wf t ->
  (forall P, 0 < L -> (Z.of_nat L < P)%Z ->
     drop_tokens t m P o = drop_tokens t m (Z.of_nat L) o)
  /\ (forall j, 0 < j < L ->
       drop_tokens t m (- Z.of_nat j) o
       = drop_tokens t m (Z.of_nat (L - j)) o).
Proof.
  intros Ht Hwt. split.
  - intros P HL HP. rewrite !(drop_tokens_unfold Ht Hwt).
    replace (slice_bound L 0 (Some P)) with L
      by (unfold slice_bound; destruct (P <? 0)%Z eqn:E;
          [apply Z.ltb_lt in E|]; lia).
    replace (slice_bound L 0 (Some (Z.of_nat L))) with L
      by (symmetry; apply slice_bound_nat; lia).
    replace (P =? 0)%Z with false by (symmetry; apply Z.eqb_neq; lia).
    replace (Z.of_nat L =? 0)%Z with false by (symmetry; apply Z.eqb_neq; lia).
    reflexivity.
  - intros j Hj. rewrite !(drop_tokens_unfold Ht Hwt).
    replace (slice_bound L 0 (Some (- Z.of_nat j)%Z)) with (L - j)
      by (unfold slice_bound;
          destruct (- Z.of_nat j <? 0)%Z eqn:E;
          [|apply Z.ltb_ge in E]; lia).
    replace (slice_bound L 0 (Some (Z.of_nat (L - j)))) with (L - j)
      by (symmetry; apply slice_bound_nat; lia).
    replace (- Z.of_nat j =? 0)%Z with false
      by (symmetry; apply Z.eqb_neq; lia).
    replace (Z.of_nat (L - j) =? 0)%Z with false
      by (symmetry; apply Z.eqb_neq; lia).
    reflexivity.
Qed.

Lemma drop_tokens_prefix_bound_witness :
  (forall P, 0 < 5 -> (Z.of_nat 5 < P)%Z ->
     drop_tokens ex_tokens ex_mask P true
     = drop_tokens ex_tokens ex_mask (Z.of_nat 5) true)
  /\ (forall j, 0 < j < 5 ->
       drop_tokens ex_tokens ex_mask (- Z.of_nat j) true
       = drop_tokens ex_tokens ex_mask (Z.of_nat (5 - j)) true).
Proof.
  apply (@drop_tokens_prefix_bound nat ex_tokens ex_mask 2 5 [2] true);
    reflexivity.
Defined.

Section MoreBlockFacts.
Variable X : Type.
Implicit Types (l : list X) (a b c n : nat).

Lemma firstn_chunks a b n l :
  firstn a (chunks (a + b) n l) = chunks a n l.
Proof.
  revert l; induction a as [|a IH]; intros l; simpl; [reflexivity|].
  now rewrite IH.
Qed.

Lemma chunks_firstn c n l : chunks c n (firstn (c * n) l) = chunks c n l.
Proof.
  revert l; induction c as [|c IH]; intros l; simpl; [reflexivity|].
  rewrite firstn_firstn, Nat.min_l by lia. f_equal.
  rewrite skipn_firstn_comm.
  replace (n + c * n - n) with (c * n) by lia. apply IH.
Qed.

Lemma chunks_app_l c n l l' :
  length l = c * n -> chunks c n (l ++ l') = chunks c n l.
Proof.
  intros Hl. rewrite <- (chunks_firstn c n (l ++ l')).
  rewrite firstn_app, Hl, Nat.sub_diag, firstn_O, app_nil_r.
  now rewrite <- Hl, firstn_all.
Qed.

Lemma combine_map_seq (Y : Type) (f : nat -> X) (g : nat -> Y) (rs : list nat) :
  combine (map f rs) (map g rs) = map (fun r => (f r, g r)) rs.
Proof. induction rs as [|r rs IH]; simpl; [reflexivity|now rewrite IH]. Qed.
End MoreBlockFacts.

Section ThreeDMore.
Variable A : Type.
Variable t : Tensor A.
Variables (B L H P : nat).
Hypothesis Hshape : shape t = [B; L; H].
Hypothesis Hwf : wf t.
Variable m : Tensor Z.
Hypothesis Hm : wf m.
Hypothesis Hmask : shape m = [B; L - P].
Hypothesis HP : P <= L.

Lemma prefix_row_firstn (r : nat) :
  prefix_row t L [H] P r = firstn (P * H) (row t L [H] r).
Proof.
  unfold prefix_row. cbn [numel fold_right].
  now rewrite Nat.sub_0_r, Nat.mul_1_r.
Qed.

Lemma prefix_positions (r : nat) :
  r < B ->
  firstn P (positions t r) = chunks P H (prefix_row t L [H] P r).
Proof.
  intros Hr. unfold positions. rewrite Hshape.
  change (block (L * numel [H]) r (data t)) with (row t L [H] r).
  cbn [numel fold_right]. rewrite Nat.mul_1_r.
  replace L with (P + (L - P)) at 1 by lia.
  now rewrite firstn_chunks, prefix_row_firstn, chunks_firstn.
Qed.

Lemma selected_length :
  length (selected t B L [H] m (Z.of_nat P)) = count_nonzero (data m) * H.
Proof.
  unfold selected. rewrite (slice_bound_nat HP).
  change (last [B; L - P; H] 0) with H.
  rewrite (concat_length_const (n:=H)).
  - now rewrite select_length by apply chunks_length.
  - intros c Hc. apply select_In in Hc.
    eapply chunks_block_length; [|exact Hc].
    unfold body_part. cbn [data].
    rewrite (concat_length_const (n:=(L - P) * H)).
    + rewrite length_map, length_seq, (mask_data_length Hm Hmask) by exact HP.
      nia.
    + intros row Hrow. apply in_map_iff in Hrow.
      destruct Hrow as [r [<- Hr]]. apply in_seq in Hr.
      apply (brow_length Hshape Hwf m HP). lia.
Qed.

Lemma out_data_length (q : nat) :
  count_nonzero (data m) = q * B ->
  length (out_data t B L H P m q) = B * ((P + q) * H).
Proof.
  intros Hq. unfold out_data.
  destruct (Z.of_nat P =? 0)%Z eqn:EP.
  - apply Z.eqb_eq in EP. rewrite selected_length, Hq. nia.
  - cbn [numel fold_right]. rewrite !Nat.mul_1_r.
    rewrite chunks_concat_seq
      by (intros r Hr; now apply (prow_length Hshape Hwf m HP)).
    rewrite (chunks_seq B (q * H)), combine_map_seq, map_map.
    rewrite (concat_length_const (n:=(P + q) * H)).
    + rewrite length_map, length_seq. reflexivity.
    + intros row Hrow. apply in_map_iff in Hrow.
      destruct Hrow as [r [<- Hr]]. apply in_seq in Hr. cbn [fst snd].
      rewrite length_app, (prow_length Hshape Hwf m HP) by lia.
      rewrite block_length; [lia|].
      rewrite selected_length, Hq. simpl. nia.
Qed.

Hypothesis HB : 0 < B.
Hypothesis HH : 0 < H.
Variable k : nat.
Hypothesis Hkeep : keeps m k.

Lemma compacted_row (r : nat) :
  r < B ->
  block ((P + k) * H) r (compacted t B L H P m)
  = prefix_row t L [H] P r ++ kept_row t L H P m r.
Proof.
  intros Hr. unfold compacted.
  apply (block_concat_seq
           (fun r => prefix_row t L [H] P r ++ kept_row t L H P m r));
    [|exact Hr].
  intros r' Hr'.
  rewrite length_app, (prow_length Hshape Hwf m HP) by exact Hr'.
  rewrite (srow_length Hshape Hwf Hm Hmask HP) by exact Hr'.
  rewrite (@mrow_count B L P m Hmask k Hkeep) by exact Hr'. lia.
Qed.

Lemma compacted_prefix (r : nat) :
  r < B ->
  firstn P (positions (mkTensor [B; P + k; H] (compacted t B L H P m)) r)
  = firstn P (positions t r).
Proof.
  intros Hr. rewrite prefix_positions by exact Hr.
  unfold positions. cbn [shape data numel fold_right].
  rewrite !Nat.mul_1_r, compacted_row by exact Hr.
  rewrite firstn_chunks. apply chunks_app_l.
  apply (prow_length Hshape Hwf m HP). exact Hr.
Qed.
End ThreeDMore.

(** X3: the prefix is kept as it is: for tokens [[B, L, H]] and a mask
    [[B, L-P]] with equal keep counts, the first [P] entries of every
    output row are the first [P] entries of the same row of the
    tokens. *)
Theorem drop_tokens_prefix_kept (A : Type) (t : Tensor A) (m : Tensor Z)
    (B L H P k : nat) (o : bool) :
  shape t = [B; L; H] -> wf t ->
  shape m = [B; L - P] -> wf m ->
  P <= L -> 0 < B -> 0 < H ->
  keeps m k ->
  exists out,
    drop_tokens t m (Z.of_nat P) o = Ok out
    /\ forall r, r < B ->
         firstn P (positions out r) = firstn P (positions t r).
Proof.
  intros Ht Hwt Hm Hwm HP HB HH Hk. eexists. split.
  - exact (drop_tokens_3d_keeps Ht Hwt Hwm Hm HP HB HH Hk o).
  - intros r Hr. eapply compacted_prefix; eassumption.
Qed.

Lemma drop_tokens_prefix_kept_witness :
  exists out,
    drop_tokens ex_tokens ex_mask (Z.of_nat 1) true = Ok out
    /\ forall r, r < 2 ->
         firstn 1 (positions out r) = firstn 1 (positions ex_tokens r).
Proof.
  apply (@drop_tokens_prefix_kept nat ex_tokens ex_mask 2 5 2 1 2 true);
    try reflexivity; try lia.
  keeps_by_rows.
Defined.

(** X4: a returned buffer is well formed: for well-formed tokens
    [[B, L, H]] and mask [[B, L-P]], whatever the keep counts, an
    output of [drop_tokens] holds exactly as many elements as its
    shape says. *)
Theorem drop_tokens_output_wf (A : Type) (t out : Tensor A) (m : Tensor Z)
    (B L H P : nat) (o : bool) :
  shape t = [B; L; H] -> wf t ->
  shape m = [B; L - P] -> wf m ->
  P <= L ->
  drop_tokens t m (Z.of_nat P) o = Ok out ->
  wf out.
Proof.
  intros Ht Hwt Hm Hwm HP Hout.
  destruct (Nat.eq_dec B 0) as [HB|HB].
  { rewrite (drop_tokens_3d_degenerate Ht Hwt Hwm Hm HP o) in Hout
      by (left; exact HB). discriminate. }
  destruct (Nat.eq_dec H 0) as [HH|HH].
  { rewrite (drop_tokens_3d_degenerate Ht Hwt Hwm Hm HP o) in Hout
      by (right; exact HH). discriminate. }
  assert (HB' : 0 < B) by lia. assert (HH' : 0 < H) by lia.
  destruct (Nat.eq_dec (count_nonzero (data m) mod B) 0) as [Hmod|Hmod].
  - assert (Hq : count_nonzero (data m) = count_nonzero (data m) / B * B)
      by (apply Nat.Div0.div_exact in Hmod; lia).
    rewrite (drop_tokens_3d_ok Ht Hwt Hwm Hm HP HB' HH' o _ Hq) in Hout.
    injection Hout as <-. unfold wf. cbn [shape data numel fold_right].
    rewrite (out_data_length Ht Hwt Hwm Hm HP _ Hq). lia.
  - rewrite (drop_tokens_3d_fail Ht Hwt Hwm Hm HP HB' HH' o Hmod) in Hout.
    discriminate.
Qed.

Lemma drop_tokens_output_wf_witness :
  wf (mkTensor [2; 2; 1] [1; 2; 3; 4]).
Proof.
  apply (@drop_tokens_output_wf nat
           (mkTensor [2; 3; 1] [1; 2; 3; 4; 5; 6])
           (mkTensor [2; 2; 1] [1; 2; 3; 4])
           (mkTensor [2; 3 - 0] [1; 1; 1; 1; 0; 0]%Z) 2 3 1 0 true);
    try reflexivity; lia.
Defined.

(** * Properties of [prepend_value] *)







Example prepend_value_docstring :
  prepend_value (mkTensor [2; 3] [2; 2; 3; 4; 5; 6]) 33
  = Ok (mkTensor [2; 4] [33; 2; 2; 3; 33; 4; 5; 6]).
Proof. reflexivity. Qed.




Section PrefixAsMask.
Variable A : Type.
Variable t : Tensor A.
Variables (B L H : nat).
Hypothesis Hshape : shape t = [B; L; H].
Hypothesis Hwf : wf t.
Variable m : Tensor Z.
Hypothesis Hm : wf m.
Hypothesis Hmask : shape m = [B; L - 1].
Hypothesis HL : 1 <= L.
Variable v : Z.
Hypothesis Hv : v <> 0%Z.

(** The mask with [v] in front of every row. *)
Let m' : Tensor Z :=
  mkTensor [B; L - 0]
    (concat (map (fun r => v :: block (L - 1) r (data m)) (seq 0 (numel [B])))).





End PrefixAsMask.



(** * Further properties of [torch_shape_get] *)

Lemma h_shape_get_descriptor (size_p type_only_p : bool) (x : PyObj) (s : Q) :
  exists d s',
    h_shape_get size_p type_only_p x s = Ok (d, s')
    /\ descriptor size_p type_only_p x = Some d.
Proof.
  unfold descriptor, h_shape_get.
  destruct (size_p && has_size x) eqn:Hs.
  - destruct (torch_memory_tensor_mb x) as (size & -> & _);
      [now apply andb_true_iff in Hs|].
    cbn [bind fst snd].
    destruct (length _ =? 0)%nat; do 2 eexists; split; reflexivity.
  - cbn [bind fst snd].
    destruct (length _ =? 0)%nat; do 2 eexists; split; reflexivity.
Qed.

Lemma list_map_st_related (T U : Type) (g : T -> Q -> Result (U * Q))
      (R : T -> U -> Prop) (xs : list T) :
  Forall (fun t => forall s, exists u s', g t s = Ok (u, s') /\ R t u) xs ->
  forall s, exists us s',
    list_map_st g xs s = Ok (us, s') /\ Forall2 R xs us.
Proof.
  induction 1 as [|t xs Ht _ IH]; intros s; simpl.
  - exists [], s. split; [reflexivity|constructor].
  - destruct (Ht s) as (u & s1 & -> & Hr). cbn [bind fst snd].
    destruct (IH s1) as (us & s2 & -> & Hrs). cbn [bind fst snd].
    exists (u :: us), s2. split; [reflexivity|now constructor].
Qed.

Lemma Forall2_flat_map_eq (T U V W : Type) (f : T -> list V) (g : U -> list W)
      (h : V -> option W) (xs : list T) (us : list U) :
  Forall2 (fun t u => map Some (g u) = map h (f t)) xs us ->
  map Some (flat_map g us) = map h (flat_map f xs).
Proof.
  induction 1 as [|t u xs us E _ IH]; simpl; [reflexivity|].
  now rewrite !map_app, E, IH.
Qed.

Lemma tree_map_leaves (size_p type_only_p : bool) (t : PyTree PyObj) :
  forall s, exists tree s',
    tree_map (h_shape_get size_p type_only_p) t s = Ok (tree, s')
    /\ map Some (leaves tree) = map (descriptor size_p type_only_p) (leaves t).
Proof.
  induction t as [x| |xs IH|xs IH|kvs IH] using PyTree_nested_ind;
    intros s; cbn [tree_map].
  - destruct (h_shape_get_descriptor size_p type_only_p x s)
      as (d & s' & -> & Hd).
    cbn [bind fst snd]. do 2 eexists. split; [reflexivity|].
    simpl. now rewrite Hd.
  - do 2 eexists. split; reflexivity.
  - destruct (@list_map_st_related _ _ _
                (fun t u => map Some (leaves u)
                            = map (descriptor size_p type_only_p) (leaves t))
                xs IH s) as (us & s' & -> & Hr).
    cbn [bind fst snd]. do 2 eexists. split; [reflexivity|].
    cbn [leaves]. now apply Forall2_flat_map_eq.
  - destruct (@list_map_st_related _ _ _
                (fun t u => map Some (leaves u)
                            = map (descriptor size_p type_only_p) (leaves t))
                xs IH s) as (us & s' & -> & Hr).
    cbn [bind fst snd]. do 2 eexists. split; [reflexivity|].
    cbn [leaves]. now apply Forall2_flat_map_eq.
  - assert (IH' : Forall (fun kv : string * PyTree PyObj =>
               forall s, exists (u : string * PyTree Desc) s',
                 (r <- tree_map (h_shape_get size_p type_only_p) (snd kv) s ;;
                  Ok ((fst kv, fst r), snd r)) = Ok (u, s')
                 /\ map Some (leaves (snd u))
                    = map (descriptor size_p type_only_p) (leaves (snd kv)))
               kvs).
    { eapply Forall_impl; [|exact IH]. intros kv Hkv s0.
      destruct (Hkv s0) as (tree & s' & -> & Hl).
      cbn [bind fst snd]. do 2 eexists. split; [reflexivity|exact Hl]. }
    destruct (@list_map_st_related _ _ _ _ kvs IH' s) as (us & s' & E & Hr).
    rewrite E. cbn [bind fst snd]. do 2 eexists. split; [reflexivity|].
    cbn [leaves].
    now apply (Forall2_flat_map_eq (fun kv => leaves (snd kv))
                 (fun kv => leaves (snd kv))).
Qed.

(** X9: every leaf is replaced by its own descriptor, in place and in
    order: the leaves of the returned tree are the descriptors of the
    leaves of the input, each computed from its leaf alone, and the
    tree has the containers and keys of the input. *)
Theorem torch_shape_get_leafwise (input : PyTree PyObj)
    (size_p type_only_p : bool) :
  exists out,
    torch_shape_get input size_p type_only_p = Ok out
    /\ map Some (leaves (result_tree out))
       = map (descriptor size_p type_only_p) (leaves input)
    /\ skeleton (result_tree out) = skeleton input.
Proof.
  destruct (torch_shape_get_returns input size_p type_only_p)
    as (tree & total & E & _ & Hsk).
  rewrite E. eexists. split; [reflexivity|].
  assert (Ht : result_tree (if size_p then WithTotal total tree
                            else TreeOnly tree) = tree)
    by now destruct size_p.
  rewrite Ht. split; [|exact Hsk].
  destruct (tree_map_leaves size_p type_only_p input 0)
    as (tree' & s' & E' & Hl).
  unfold torch_shape_get in E. rewrite E' in E. cbn [bind fst snd] in E.
  assert (tree' = tree) by (destruct size_p; congruence).
  now subst tree'.
Qed.



(** * Properties of [TorchModelMode] *)

Import ModelMode.

Section NNModuleInduction.
Variable P : NNModule -> Prop.
Hypothesis HMod : forall b cs, Forall P cs -> P (Mod b cs).

Fixpoint NNModule_nested_ind (m : NNModule) : P m :=
  match m with
  | Mod b cs =>
      HMod b ((fix go (l : list NNModule) : Forall P l :=
                 match l with
                 | [] => Forall_nil _
                 | c :: r => Forall_cons _ (NNModule_nested_ind c) (go r)
                 end) cs)
  end.
End NNModuleInduction.

Lemma train_all_in_mode (b : bool) (m : NNModule) :
  all_in_mode b (train b m) = true.
Proof.
  induction m as [t cs IH] using NNModule_nested_ind. simpl.
  rewrite eqb_reflx. simpl.
  apply forallb_forall. intros c Hc.
  apply in_map_iff in Hc. destruct Hc as [c' [<- Hc']].
  rewrite Forall_forall in IH. now apply IH.
Qed.

Lemma train_train (b b' : bool) (m : NNModule) :
  train b (train b' m) = train b m.
Proof.
  induction m as [t cs IH] using NNModule_nested_ind. simpl.
  f_equal. rewrite map_map. apply map_ext_in. intros c Hc.
  rewrite Forall_forall in IH. now apply IH.
Qed.

Lemma train_fixes_iff (b : bool) (m : NNModule) :
  train b m = m <-> all_in_mode b m = true.
Proof.
  split; [intros <-; apply train_all_in_mode|].
  induction m as [t cs IH] using NNModule_nested_ind. simpl.
  intros H. apply andb_true_iff in H. destruct H as [Ht Hcs].
  apply eqb_prop in Ht. subst t. f_equal.
  rewrite <- (map_id cs) at 2. apply map_ext_in. intros c Hc.
  rewrite Forall_forall in IH. apply IH; [exact Hc|].
  rewrite forallb_forall in Hcs. now apply Hcs.
Qed.

Lemma exit_model (m : NNModule) (mode : string) (orig : bool) :
  model (exit (mkCtx m mode (Some orig))) = train orig m.
Proof. now destruct orig. Qed.

(** The statement with a mode that [__enter__] accepts. *)
Lemma with_mode_valid_value (X : Type) (m : NNModule) (mode : string)
      (body : NNModule -> NNModule * option X) :
  lower mode = "train"%string \/ lower mode = "eval"%string ->
  let inside := train (lower mode =? "train")%string m in
  with_mode m mode body
  = (train (training m) (fst (body inside)),
     option_map FromBody (snd (body inside))).
Proof.
  intros Hv inside. subst inside. unfold with_mode, enter, init.
  cbn [model ModelMode.mode original_mode].
  destruct (lower mode =? "train")%string eqn:Et.
  - cbn [fst snd model ModelMode.mode original_mode].
    now rewrite exit_model.
  - destruct Hv as [Hv|Hv];
      [apply String.eqb_eq in Hv; congruence|].
    apply String.eqb_eq in Hv. rewrite Hv.
    cbn [fst snd model ModelMode.mode original_mode].
    now rewrite exit_model.
Qed.

(** X11: with a mode that lowers to ["train"] or ["eval"], the body
    runs on a model whose modules are all in the requested mode, and
    after the statement every module is in the mode the root module
    had before it, whatever the body did to the model; an exception
    of the body goes on. *)
Theorem with_mode_sets_and_restores (X : Type) (m : NNModule) (mode : string)
    (body : NNModule -> NNModule * option X) :
  lower mode = "train"%string \/ lower mode = "eval"%string ->
  let want := (lower mode =? "train")%string in
  let inside := train want m in
  all_in_mode want inside = true
  /\ snd (with_mode m mode body) = option_map FromBody (snd (body inside))
  /\ training (fst (with_mode m mode body)) = training m
  /\ all_in_mode (training m) (fst (with_mode m mode body)) = true.
Proof.
  intros Hv want inside. rewrite (@with_mode_valid_value X m mode body Hv).
  fold want. fold inside. cbn [fst snd].
  split; [apply train_all_in_mode|]. split; [reflexivity|].
  split; [|apply train_all_in_mode].
  now destruct (fst (body inside)).
Qed.

Lemma with_mode_sets_and_restores_witness :
  let m := Mod true [Mod false []; Mod true [Mod true []]] in
  let body := fun x : NNModule => (x, @None nat) in
  let want := (lower "Eval" =? "train")%string in
  let inside := train want m in
  all_in_mode want inside = true
  /\ snd (with_mode m "Eval" body) = option_map FromBody (snd (body inside))
  /\ training (fst (with_mode m "Eval" body)) = training m
  /\ all_in_mode (training m) (fst (with_mode m "Eval" body)) = true.
Proof.
  apply (@with_mode_sets_and_restores nat
           (Mod true [Mod false []; Mod true [Mod true []]]) "Eval"
           (fun x => (x, None))).
  right. reflexivity.
Defined.

(** X12: the statement gives the model back as it was exactly when
    all its modules were in the mode of the root: with an accepted
    mode and a body that leaves the model alone, the model after the
    statement equals the model before it if and only if every
    submodule had the root's flag. A submodule in another mode is
    not restored. *)
Theorem with_mode_round_trip (X : Type) (m : NNModule) (mode : string)
    (r : option X) :
  lower mode = "train"%string \/ lower mode = "eval"%string ->
  fst (with_mode m mode (fun x => (x, r))) = m
  <-> all_in_mode (training m) m = true.
Proof.
  intros Hv. rewrite (@with_mode_valid_value X m mode (fun x => (x, r)) Hv).
  cbn [fst]. rewrite train_train. apply train_fixes_iff.
Qed.

Lemma with_mode_round_trip_witness :
  fst (with_mode (Mod true [Mod true []; Mod true [Mod true []]]) "eval"
         (fun x => (x, @None nat)))
  = Mod true [Mod true []; Mod true [Mod true []]]
  <-> all_in_mode (training (Mod true [Mod true []; Mod true [Mod true []]]))
        (Mod true [Mod true []; Mod true [Mod true []]]) = true.
Proof.
  apply (@with_mode_round_trip nat
           (Mod true [Mod true []; Mod true [Mod true []]]) "eval" None).
  right. reflexivity.
Defined.

(** A frozen submodule is switched on by the statement. *)
Example with_mode_frozen_child :
  fst (with_mode (Mod true [Mod false []]) "eval" (fun x => (x, @None nat)))
  = Mod true [Mod true []].
Proof. reflexivity. Qed.

(** X13: a mode that lowers to neither ["train"] nor ["eval"] makes
    [__enter__] raise [ValueError] with the mode in its message; the
    body does not run and the model is left as it was. *)
Theorem with_mode_invalid (X : Type) (m : NNModule) (mode : string)
    (body : NNModule -> NNModule * option X) :
  lower mode <> "train"%string -> lower mode <> "eval"%string ->
  with_mode m mode body
  = (m, Some (FromEnter
               (ValueError ("Invalid mode '" ++ mode
                            ++ "', must be 'train' or 'eval'")%string))).
Proof.
  intros Ht He. unfold with_mode, enter, init.
  cbn [model ModelMode.mode original_mode].
  apply String.eqb_neq in Ht. apply String.eqb_neq in He.
  rewrite Ht, He. reflexivity.
Qed.

Lemma with_mode_invalid_witness :
  with_mode (Mod true [Mod false []]) "test" (fun x => (eval x, Some 0))
  = (Mod true [Mod false []],
     Some (FromEnter
             (ValueError ("Invalid mode '" ++ "test"
                          ++ "', must be 'train' or 'eval'")%string))).
Proof.
  apply (@with_mode_invalid nat (Mod true [Mod false []]) "test"
           (fun x => (eval x, Some 0))); discriminate.
Defined.

Lemma lower_char_idem (c : Ascii.ascii) :
  lower_char (lower_char c) = lower_char c.
Proof. destruct c as [[] [] [] [] [] [] [] []]; reflexivity. Qed.

Lemma lower_idem (s : string) : lower (lower s) = lower s.
Proof.
  induction s as [|c s IH]; simpl; [reflexivity|].
  now rewrite lower_char_idem, IH.
Qed.

(** X14: the mode is matched without regard to ASCII case: a mode
    that [__enter__] accepts acts as its lower-case form. *)
Theorem with_mode_case_insensitive (X : Type) (m : NNModule) (mode : string)
    (body : NNModule -> NNModule * option X) :
  lower mode = "train"%string \/ lower mode = "eval"%string ->
  with_mode m mode body = with_mode m (lower mode) body.
Proof.
  intros Hv.
  rewrite (@with_mode_valid_value X m mode body Hv).
  assert (Hv' : lower (lower mode) = "train"%string
                \/ lower (lower mode) = "eval"%string)
    by (rewrite lower_idem; exact Hv).
  rewrite (@with_mode_valid_value X m (lower mode) body Hv').
  now rewrite lower_idem.
Qed.

Lemma with_mode_case_insensitive_witness :
  with_mode (Mod false [Mod true []]) "TRAIN" (fun x => (x, @None nat))
  = with_mode (Mod false [Mod true []]) (lower "TRAIN")
      (fun x => (x, @None nat)).
Proof.
  apply (@with_mode_case_insensitive nat (Mod false [Mod true []]) "TRAIN"
           (fun x => (x, None))).
  left. reflexivity.
Defined.

(** * Properties of [tensorify_scalars] *)

Import Tensorify.

Section WrapperFacts.
Variables (V K E : Type).
Variable index_error : E.
Variable key_error : E.
Variable is_tensor : V -> bool.
Variable tensor : V -> Outcome E V.
Variable item : V -> Outcome E V.
Variable args : list V.

Local Abbreviation getitem := (Tensorify.getitem index_error).
Local Abbreviation setitem := (Tensorify.setitem index_error).
Local Abbreviation dict_get := (Tensorify.dict_get key_error).
Local Abbreviation original_types_of :=
  (Tensorify.original_types_of index_error is_tensor).
Local Abbreviation convert := (Tensorify.convert index_error key_error tensor).
Local Abbreviation give_back := (Tensorify.give_back key_error item).
Local Abbreviation wrapper :=
  (Tensorify.wrapper (K:=K) index_error key_error is_tensor tensor item).

Lemma py_index_bound (len : nat) (i : Z) (j : nat) :
  py_index len i = Some j -> j < len.
Proof.
  unfold py_index.
  destruct ((0 <=? i) && (i <? Z.of_nat len))%Z eqn:E1.
  - intros [= <-]. apply andb_true_iff in E1. destruct E1 as [H1 H2].
    apply Z.leb_le in H1. apply Z.ltb_lt in H2. lia.
  - destruct ((- Z.of_nat len <=? i) && (i <? 0))%Z eqn:E2; [|discriminate].
    intros [= <-]. apply andb_true_iff in E2. destruct E2 as [H1 H2].
    apply Z.leb_le in H1. apply Z.ltb_lt in H2. lia.
Qed.

Lemma getitem_returned (a : Z) (v : V) :
  getitem args a = Returned v <->
  exists i, py_index (length args) a = Some i /\ nth_error args i = Some v.
Proof.
  unfold Tensorify.getitem. split.
  - destruct (py_index (length args) a) as [i|]; [|discriminate].
    destruct (nth_error args i) as [x|] eqn:Ex; [|discriminate].
    intros [= <-]. now exists i.
  - intros (i & -> & ->). reflexivity.
Qed.

Lemma getitem_in_range (a : Z) :
  py_index (length args) a <> None -> exists v, getitem args a = Returned v.
Proof.
  intros Ha. destruct (py_index (length args) a) as [i|] eqn:Ei;
    [|contradiction].
  destruct (nth_error args i) as [v|] eqn:Ev.
  - exists v. apply getitem_returned. now exists i.
  - apply nth_error_None in Ev. apply py_index_bound in Ei. lia.
Qed.

Lemma getitem_raises (a : Z) (e : E) :
  getitem args a = Raised e -> e = index_error.
Proof.
  unfold Tensorify.getitem.
  destruct (py_index (length args) a) as [i|]; [|now intros [= <-]].
  destruct (nth_error args i); [discriminate|now intros [= <-]].
Qed.

(** ** The dictionary *)

Lemma dict_get_set_same (k : Z) (b : bool) (d : Dict) :
  dict_get k (dict_set k b d) = Returned b.
Proof.
  induction d as [|[k' b'] d IH]; simpl.
  - now rewrite Z.eqb_refl.
  - destruct (k' =? k)%Z eqn:Ek; simpl; rewrite Ek; [reflexivity|exact IH].
Qed.

Lemma dict_get_set_other (k k' : Z) (b : bool) (d : Dict) :
  k' <> k -> dict_get k' (dict_set k b d) = dict_get k' d.
Proof.
  intros Hne. induction d as [|[k0 b0] d IH]; simpl.
  - replace (k =? k')%Z with false by (symmetry; apply Z.eqb_neq; lia).
    reflexivity.
  - destruct (k0 =? k)%Z eqn:Ek; simpl.
    + apply Z.eqb_eq in Ek. subst k0.
      replace (k =? k')%Z with false by (symmetry; apply Z.eqb_neq; lia).
      reflexivity.
    + destruct (k0 =? k')%Z; [reflexivity|exact IH].
Qed.

Lemma dict_set_keys (k k' : Z) (b : bool) (d : Dict) :
  In k' (map fst (dict_set k b d)) <-> k' = k \/ In k' (map fst d).
Proof.
  induction d as [|[k0 b0] d IH]; simpl.
  - intuition.
  - destruct (k0 =? k)%Z eqn:Ek; simpl.
    + apply Z.eqb_eq in Ek. subst k0. intuition.
    + rewrite IH. intuition.
Qed.

(** The dictionary holds, for each of its keys, whether that argument
    is a tensor. *)
Let records (d : Dict) : Prop :=
  forall k, In k (map fst d) ->
    exists v, getitem args k = Returned v
              /\ dict_get k d = Returned (is_tensor v).

Lemma records_set (k : Z) (v : V) (d : Dict) :
  getitem args k = Returned v -> records d ->
  records (dict_set k (is_tensor v) d).
Proof.
  intros Hk Hd k' Hin. apply dict_set_keys in Hin.
  destruct (Z.eq_dec k' k) as [->|Hne].
  - exists v. split; [exact Hk|apply dict_get_set_same].
  - destruct Hin as [->|Hin]; [contradiction|].
    destruct (Hd k' Hin) as (v' & Hv' & Hg).
    exists v'. split; [exact Hv'|]. now rewrite dict_get_set_other.
Qed.

Lemma original_types_of_ok (argnums : list Z) (d : Dict) :
  Forall (fun a => py_index (length args) a <> None) argnums ->
  records d ->
  exists d',
    original_types_of args argnums d = Returned d'
    /\ records d'
    /\ (forall k, In k (map fst d') <-> In k argnums \/ In k (map fst d)).
Proof.
  intros Hr. revert d. induction Hr as [|a argnums Ha _ IH]; intros d Hd.
  - exists d. split; [reflexivity|]. split; [exact Hd|]. simpl. intuition.
  - destruct (getitem_in_range a Ha) as [v Hv].
    cbn [Tensorify.original_types_of]. rewrite Hv. cbn [and_then].
    destruct (IH _ (@records_set a v d Hv Hd)) as (d' & E' & Hd' & Hk').
    exists d'. split; [exact E'|]. split; [exact Hd'|].
    intros k. rewrite Hk', dict_set_keys. simpl. intuition.
Qed.

Lemma original_types_of_raises (argnums : list Z) (d : Dict) :
  Exists (fun a => py_index (length args) a = None) argnums ->
  original_types_of args argnums d = Raised index_error.
Proof.
  intros He. revert d. induction argnums as [|a argnums IH]; intros d.
  - inversion He.
  - cbn [Tensorify.original_types_of].
    destruct (Tensorify.getitem index_error args a) as [v|e] eqn:Ea;
      cbn [and_then].
    + apply IH. inversion He as [? ? Hn|]; subst; [|assumption].
      apply getitem_returned in Ea. destruct Ea as (i & Hi & _). congruence.
    + now rewrite (@getitem_raises a e Ea).
Qed.

(** ** Assignment to a position *)

Lemma replace_nth_length (j : nat) (v : V) (l : list V) :
  length (replace_nth j v l) = length l.
Proof.
  revert j; induction l as [|x l IH]; intros [|j]; simpl; auto.
Qed.

Lemma replace_nth_same (j : nat) (v : V) (l : list V) :
  j < length l -> nth_error (replace_nth j v l) j = Some v.
Proof.
  revert j; induction l as [|x l IH]; intros [|j] Hj; simpl in *;
    try lia; [reflexivity|]. apply IH. lia.
Qed.

Lemma replace_nth_other (i j : nat) (v : V) (l : list V) :
  i <> j -> nth_error (replace_nth j v l) i = nth_error l i.
Proof.
  revert i j; induction l as [|x l IH]; intros [|i] [|j] Hne; simpl;
    try reflexivity; try contradiction. apply IH. lia.
Qed.

(** Position [i] is named by one of [argnums]. *)
Let selected (argnums : list Z) (i : nat) : Prop :=
  exists a, In a argnums /\ py_index (length args) a = Some i.

Lemma classic_selected (argnums : list Z) (i : nat) :
  selected argnums i \/ ~ selected argnums i.
Proof.
  induction argnums as [|a argnums IH].
  - right. intros (a & [] & _).
  - destruct IH as [(a' & Ha' & Hi')|IH].
    + left. exists a'. split; [now right|exact Hi'].
    + destruct (py_index (length args) a) as [j|] eqn:Ej.
      * destruct (Nat.eq_dec j i) as [->|Hne].
        -- left. exists a. split; [now left|exact Ej].
        -- right. intros (a' & [<-|Ha'] & Hi'); [congruence|].
           apply IH. now exists a'.
      * right. intros (a' & [<-|Ha'] & Hi'); [congruence|].
        apply IH. now exists a'.
Qed.

Hypothesis Htensor :
  forall v, is_tensor v = false ->
    exists tv, tensor v = Returned tv /\ is_tensor tv = true.

Lemma convert_ok (d : Dict) (argnums : list Z) :
  records d ->
  (forall a, In a argnums -> In a (map fst d)) ->
  forall new_args, length new_args = length args ->
  exists new_args',
    convert args d argnums new_args = Returned new_args'
    /\ length new_args' = length args
    /\ (forall i, ~ selected argnums i ->
          nth_error new_args' i = nth_error new_args i)
    /\ (forall i v, nth_error args i = Some v -> is_tensor v = true ->
          nth_error new_args' i = nth_error new_args i)
    /\ (forall i v, selected argnums i -> nth_error args i = Some v ->
          is_tensor v = false ->
          exists tv, tensor v = Returned tv
                     /\ nth_error new_args' i = Some tv).
Proof.
  intros Hd. induction argnums as [|a argnums IH]; intros Hkeys new_args Hlen.
  - exists new_args. split; [reflexivity|]. split; [exact Hlen|].
    split; [reflexivity|]. split; [reflexivity|].
    intros i v (a & [] & _).
  - assert (Hin : In a (map fst d)) by (apply Hkeys; now left).
    assert (Hkeys' : forall a', In a' argnums -> In a' (map fst d))
      by (intros a' Ha'; apply Hkeys; now right).
    destruct (Hd a Hin) as (v & Hv & Hg).
    pose proof Hv as Hv'. apply getitem_returned in Hv'.
    destruct Hv' as (j & Hj & Hjv).
    pose proof (py_index_bound _ _ Hj) as Hjn.
    cbn [Tensorify.convert]. rewrite Hg. cbn [and_then].
    destruct (is_tensor v) eqn:Et; cbn [negb].
    + destruct (IH Hkeys' new_args Hlen) as (new' & E' & Hl' & HA & HC & HB).
      exists new'. split; [exact E'|]. split; [exact Hl'|].
      split; [|split; [exact HC|]].
      * intros i Hi. apply HA. intros (a' & Ha' & Hi').
        apply Hi. exists a'. split; [now right|exact Hi'].
      * intros i v0 (a' & [<-|Ha'] & Hi') Hv0 Ht0.
        -- assert (i = j) by congruence. subst i. congruence.
        -- apply (HB i v0); [now exists a'|exact Hv0|exact Ht0].
    + destruct (@Htensor v Et) as (tv & Htv & _).
      rewrite Hv. cbn [and_then]. rewrite Htv. cbn [and_then].
      unfold Tensorify.setitem.
      rewrite Hlen, Hj. cbn [and_then].
      destruct (IH Hkeys' (replace_nth j tv new_args))
        as (new' & E' & Hl' & HA & HC & HB);
        [now rewrite replace_nth_length|].
      exists new'. split; [exact E'|]. split; [exact Hl'|].
      split; [|split].
      * intros i Hi.
        assert (Hij : i <> j).
        { intros ->. apply Hi. exists a. split; [now left|exact Hj]. }
        rewrite HA.
        -- now apply replace_nth_other.
        -- intros (a' & Ha' & Hi'). apply Hi.
           exists a'. split; [now right|exact Hi'].
      * intros i v0 Hv0 Ht0.
        assert (Hij : i <> j) by (intros ->; congruence).
        rewrite (HC i v0 Hv0 Ht0). now apply replace_nth_other.
      * intros i v0 Hsel Hv0 Ht0.
        destruct (classic_selected argnums i) as [Hs|Hs].
        -- apply (HB i v0 Hs Hv0 Ht0).
        -- destruct Hsel as (a' & [<-|Ha'] & Hi');
             [|exfalso; apply Hs; now exists a'].
           assert (i = j) by congruence. subst i.
           assert (v0 = v) by congruence. subst v0.
           exists tv. split; [exact Htv|].
           rewrite (HA j Hs). apply replace_nth_same. lia.
Qed.

(** ** The last loop *)

(** Argument [a] is there and is not a tensor. *)
Let scalar_at (a : Z) : bool :=
  match getitem args a with
  | Returned v => negb (is_tensor v)
  | Raised _ => false
  end.

Lemma give_back_value (d : Dict) (keys : list Z) (result : V) :
  records d ->
  (forall k, In k keys -> In k (map fst d)) ->
  give_back d keys result
  = if existsb scalar_at keys then item result else Returned result.
Proof.
  intros Hd. induction keys as [|k keys IH]; intros Hk; [reflexivity|].
  destruct (Hd k (Hk k (or_introl eq_refl))) as (v & Hv & Hg).
  cbn [Tensorify.give_back existsb]. rewrite Hg. cbn [and_then].
  unfold scalar_at at 1. rewrite Hv.
  destruct (is_tensor v); cbn [negb orb]; [|reflexivity].
  apply IH. intros k' Hk'. apply Hk. now right.
Qed.

Lemma existsb_same_elements (f : Z -> bool) (l l' : list Z) :
  (forall x, In x l <-> In x l') -> existsb f l = existsb f l'.
Proof.
  intros H. apply eq_true_iff_eq. rewrite !existsb_exists.
  split; intros (x & Hx & Hf); exists x; split; auto; now apply H.
Qed.

Lemma records_empty : records [].
Proof. intros k []. Qed.

Lemma convert_all_tensors (d : Dict) (argnums : list Z) (new_args : list V) :
  (forall a, In a argnums -> dict_get a d = Returned true) ->
  convert args d argnums new_args = Returned new_args.
Proof.
  induction argnums as [|a argnums IH]; intros H; [reflexivity|].
  cbn [Tensorify.convert]. rewrite (H a (or_introl eq_refl)).
  cbn [and_then negb]. apply IH. intros a' Ha'. apply H. now right.
Qed.

(** X15: when every argument named by [argnums] is there and is a
    tensor, the decorated function behaves as the function itself:
    it is called on the same arguments and its result, or its
    exception, is passed on unchanged. *)
Theorem wrapper_all_tensors (argnums : list Z)
    (func : list V -> K -> Outcome E V) (kwargs : K) :
  Forall (fun a => exists v, getitem args a = Returned v
                             /\ is_tensor v = true) argnums ->
  wrapper argnums func args kwargs = func args kwargs.
Proof.
  intros Hall.
  assert (Hr : Forall (fun a => py_index (length args) a <> None) argnums).
  { eapply Forall_impl; [|exact Hall]. intros a (v & Hv & _).
    apply getitem_returned in Hv. destruct Hv as (i & -> & _). discriminate. }
  destruct (original_types_of_ok Hr records_empty) as (d & Ed & Hd & Hk).
  assert (Htrue : forall a, In a argnums -> dict_get a d = Returned true).
  { intros a Ha. rewrite Forall_forall in Hall.
    destruct (Hall a Ha) as (v & Hv & Ht).
    destruct (Hd a) as (v' & Hv' & Hg); [apply Hk; now left|].
    rewrite Hv in Hv'. injection Hv' as <-. now rewrite Hg, Ht. }
  unfold Tensorify.wrapper. rewrite Ed. cbn [and_then].
  rewrite (convert_all_tensors d argnums args Htrue). cbn [and_then].
  destruct (func args kwargs) as [result|e]; cbn [and_then]; [|reflexivity].
  rewrite (@give_back_value d (map fst d) result Hd)
    by (intros k Hin; exact Hin).
  replace (existsb scalar_at (map fst d)) with false; [reflexivity|].
  symmetry. apply not_true_is_false. intros Hex.
  apply existsb_exists in Hex. destruct Hex as (a & Ha & Hs).
  apply Hk in Ha. destruct Ha as [Ha|[]].
  rewrite Forall_forall in Hall. destruct (Hall a Ha) as (v & Hv & Ht).
  unfold scalar_at in Hs. rewrite Hv, Ht in Hs. discriminate.
Qed.

(** X16: when one of [argnums] names no argument, the call raises
    [IndexError] and the decorated function is not called: the
    outcome is the same whatever the function is. *)
Theorem wrapper_index_error (argnums : list Z)
    (func : list V -> K -> Outcome E V) (kwargs : K) :
  Exists (fun a => py_index (length args) a = None) argnums ->
  wrapper argnums func args kwargs = Raised index_error.
Proof.
  intros He. unfold Tensorify.wrapper.
  now rewrite (original_types_of_raises [] He).
Qed.

(** X17: when every one of [argnums] names an argument and
    [torch.tensor] turns every argument that is not a tensor into one,
    the function is called on a list of the same length in which every
    named position holds a tensor (the argument itself, or its
    conversion when it was not a tensor) and every other position
    holds the argument unchanged; the call returns [result.item()]
    when one of the named arguments was not a tensor, and the result
    itself otherwise. *)
Theorem wrapper_converts (argnums : list Z)
    (func : list V -> K -> Outcome E V) (kwargs : K) :
  Forall (fun a => py_index (length args) a <> None) argnums ->
  exists new_args,
    length new_args = length args
    /\ (forall i, ~ selected argnums i ->
          nth_error new_args i = nth_error args i)
    /\ (forall i v, selected argnums i -> nth_error args i = Some v ->
          exists w, nth_error new_args i = Some w
                    /\ is_tensor w = true
                    /\ (if is_tensor v then w = v
                        else tensor v = Returned w))
    /\ wrapper argnums func args kwargs
       = (result <~ func new_args kwargs ;;
          if existsb scalar_at argnums then item result
          else Returned result).
Proof.
  intros Hr.
  destruct (original_types_of_ok Hr records_empty) as (d & Ed & Hd & Hk).
  assert (Hkeys : forall a, In a argnums -> In a (map fst d))
    by (intros a Ha; apply Hk; now left).
  destruct (@convert_ok d argnums Hd Hkeys args eq_refl)
    as (new_args & Ec & Hlen & HA & HC & HB).
  exists new_args. split; [exact Hlen|]. split; [exact HA|]. split.
  - intros i v Hsel Hv. destruct (is_tensor v) eqn:Et.
    + exists v. rewrite (HC i v Hv Et). auto.
    + destruct (HB i v Hsel Hv Et) as (tv & Htv & Hn).
      exists tv. split; [exact Hn|]. split; [|exact Htv].
      destruct (@Htensor v Et) as (tv' & Htv' & Ht'). congruence.
  - unfold Tensorify.wrapper. rewrite Ed. cbn [and_then].
    rewrite Ec. cbn [and_then].
    destruct (func new_args kwargs) as [result|e]; cbn [and_then];
      [|reflexivity].
    rewrite (@give_back_value d (map fst d) result Hd)
      by (intros k Hin; exact Hin).
    rewrite (existsb_same_elements scalar_at (map fst d) argnums);
      [reflexivity|].
    intros k. rewrite Hk. simpl. tauto.
Qed.
End WrapperFacts.

(** An example: values are numbers tagged as tensor or scalar, the
    function doubles its first argument. *)
Definition ex_is_tensor (v : bool * Z) : bool := fst v.
Definition ex_tensor (v : bool * Z) : Outcome string (bool * Z) :=
  Returned (true, snd v).
Definition ex_item (v : bool * Z) : Outcome string (bool * Z) :=
  Returned (false, snd v).
Definition ex_double (args : list (bool * Z)) (kwargs : unit)
  : Outcome string (bool * Z) :=
  match args with
  | (true, z) :: _ => Returned (true, 2 * z)%Z
  | _ => Raised "TypeError"%string
  end.

Example wrapper_on_scalar :
  Tensorify.wrapper "IndexError"%string "KeyError"%string
    ex_is_tensor ex_tensor ex_item [0%Z] ex_double [(false, 21%Z)] tt
  = Returned (false, 42%Z).
Proof. reflexivity. Qed.

Lemma wrapper_all_tensors_witness :
  Tensorify.wrapper "IndexError"%string "KeyError"%string
    ex_is_tensor ex_tensor ex_item [0%Z; (-1)%Z] ex_double
    [(true, 21%Z); (true, 5%Z)] tt
  = ex_double [(true, 21%Z); (true, 5%Z)] tt.
Proof.
  apply (@wrapper_all_tensors (bool * Z) unit string
           "IndexError"%string "KeyError"%string ex_is_tensor ex_tensor
           ex_item [(true, 21%Z); (true, 5%Z)] [0%Z; (-1)%Z] ex_double tt).
  repeat constructor.
  - exists (true, 21%Z). split; reflexivity.
  - exists (true, 5%Z). split; reflexivity.
Defined.

Lemma wrapper_index_error_witness :
  Tensorify.wrapper "IndexError"%string "KeyError"%string
    ex_is_tensor ex_tensor ex_item [0%Z; 2%Z] ex_double
    [(false, 21%Z); (true, 5%Z)] tt
  = Raised "IndexError"%string.
Proof.
  apply (@wrapper_index_error (bool * Z) unit string
           "IndexError"%string "KeyError"%string ex_is_tensor ex_tensor
           ex_item [(false, 21%Z); (true, 5%Z)] [0%Z; 2%Z] ex_double tt).
  apply Exists_cons_tl. apply Exists_cons_hd. reflexivity.
Defined.

Lemma wrapper_converts_witness :
  let args := [(false, 21%Z); (true, 5%Z)] in
  let argnums := [0%Z; (-1)%Z] in
  exists new_args,
    length new_args = length args
    /\ (forall i,
          ~ (exists a, In a argnums
                       /\ Tensorify.py_index (length args) a = Some i) ->
          nth_error new_args i = nth_error args i)
    /\ (forall i v,
          (exists a, In a argnums
                     /\ Tensorify.py_index (length args) a = Some i) ->
          nth_error args i = Some v ->
          exists w, nth_error new_args i = Some w
                    /\ ex_is_tensor w = true
                    /\ (if ex_is_tensor v then w = v
                        else ex_tensor v = Returned w))
    /\ Tensorify.wrapper "IndexError"%string "KeyError"%string
         ex_is_tensor ex_tensor ex_item argnums ex_double args tt
       = Tensorify.and_then (ex_double new_args tt)
           (fun result =>
              if existsb
                   (fun a =>
                      match Tensorify.getitem "IndexError"%string args a with
                      | Returned v => negb (ex_is_tensor v)
                      | Raised _ => false
                      end) argnums
              then ex_item result
              else Returned result).
Proof.
  apply (@wrapper_converts (bool * Z) unit string
           "IndexError"%string "KeyError"%string ex_is_tensor ex_tensor
           ex_item [(false, 21%Z); (true, 5%Z)]).
  - intros v _. exists (true, snd v). split; reflexivity.
  - repeat constructor; discriminate.
Defined.
